(** * Serial to TCP bridge (examples/serial_to_tcp_bridge.js)

    A shallow embedding of the bridge script and the properties of its
    event handlers.  The script is a set of callbacks over three shared
    objects: the serial port, the TCP server and the [Set] of client
    sockets.  Each callback is embedded as a computation in a small monad
    that threads the program state, records every call into the runtime
    in a trace, and models JavaScript's [throw] / [try-catch] and
    [process.exit]. *)

From Stdlib Require Import ZArith Ascii String List.
From Stdlib.Strings Require Byte.
From stdpp Require Import base tactics decidable option list strings numbers
  functions pretty.

Open Scope string_scope.
Open Scope Z_scope.

(** ** JavaScript values used by the script *)

Module JS.

(** The two kinds of value the argument handling manipulates:
    strings, and [undefined] (an array read out of range). *)
Inductive value :=
| undefined
| str (s : string).

(** ToBoolean: [undefined] and the empty string are falsy. *)
Definition truthy (v : value) : bool :=
  match v with
  | undefined => false
  | str s => negb (String.eqb s "")
  end.

(** ToString, as applied by template literals and by [parseInt]. *)
Definition to_string (v : value) : string :=
  match v with
  | undefined => "undefined"
  | str s => s
  end.

(** [Array.prototype.indexOf]: index of the first element strictly equal
    to [x], or [-1]. *)
Fixpoint indexOf_from (l : list string) (x : string) (i : Z) : Z :=
  match l with
  | [] => -1
  | y :: l' => if decide (y = x) then i else indexOf_from l' x (i + 1)
  end.

Definition indexOf (l : list string) (x : string) : Z := indexOf_from l x 0.

(** [l[i]]: reading an array of strings at an integer index. *)
Definition get (l : list string) (i : Z) : value :=
  if decide (0 <= i) then
    match l !! Z.to_nat i with
    | Some s => str s
    | None => undefined
    end
  else undefined.

(** *** Numbers

    The numbers of the script are the results of [parseInt]: NaN, written
    [None], and the doubles that are integers or infinite, written
    [Some z], where [2^1024] and [-2^1024] stand for +Infinity and
    -Infinity (the two values that rounding to a double treats as the
    neighbours of the largest finite doubles). *)

Definition infinity : Z := 2 ^ 1024.

(** The Number value for an integer: the nearest double, ties to the even
    significand, the infinite one from [2^1024] on. *)
Definition round_double (x : Z) : Z :=
  let m := Z.abs x in
  if m <? 2 ^ 53 then x else
  let e := Z.log2 m - 52 in
  let q := m / 2 ^ e in
  let r := m mod 2 ^ e in
  let half := 2 ^ (e - 1) in
  let q' := if (half <? r) || ((r =? half) && Z.odd q) then q + 1 else q in
  Z.sgn x * Z.min (q' * 2 ^ e) infinity.

(** *** [parseInt(string)] without a radix argument

    Strings are sequences of UTF-8 bytes.  The result is NaN when no digit
    is read, and else the Number value for the integer that the digits
    denote. *)

Definition code (c : ascii) : Z := Z.of_N (N_of_ascii c).

(** One-byte white space and line terminators: TAB, LF, VT, FF, CR, SP. *)
Definition ws1 (c : ascii) : bool :=
  let n := code c in ((9 <=? n) && (n <=? 13)) || (n =? 32).

(** U+00A0, encoded on two bytes. *)
Definition ws2 (c1 c2 : ascii) : bool := (code c1 =? 194) && (code c2 =? 160).

(** The three-byte ones: U+1680, U+2000..U+200A, U+2028, U+2029, U+202F,
    U+205F, U+3000 and U+FEFF. *)
Definition ws3 (c1 c2 c3 : ascii) : bool :=
  let a := code c1 in let b := code c2 in let c := code c3 in
  ((a =? 225) && (b =? 154) && (c =? 128))
  || ((a =? 226) && (b =? 128) &&
        (((128 <=? c) && (c <=? 138)) || (c =? 168) || (c =? 169) || (c =? 175)))
  || ((a =? 226) && (b =? 129) && (c =? 159))
  || ((a =? 227) && (b =? 128) && (c =? 128))
  || ((a =? 239) && (b =? 187) && (c =? 191)).

Fixpoint trimStart (s : string) : string :=
  match s with
  | EmptyString => s
  | String c1 s1 =>
      if ws1 c1 then trimStart s1 else
      match s1 with
      | EmptyString => s
      | String c2 s2 =>
          if ws2 c1 c2 then trimStart s2 else
          match s2 with
          | EmptyString => s
          | String c3 s3 => if ws3 c1 c2 c3 then trimStart s3 else s
          end
      end
  end.

Definition digit_value (radix : Z) (c : ascii) : option Z :=
  let n := code c in
  let v :=
    if (48 <=? n) && (n <=? 57) then Some (n - 48)
    else if (97 <=? n) && (n <=? 122) then Some (n - 87)
    else if (65 <=? n) && (n <=? 90) then Some (n - 55)
    else None in
  match v with
  | Some d => if d <? radix then Some d else None
  | None => None
  end.

(** The longest prefix of digits; [acc] is [None] until a digit is read. *)
Fixpoint parse_digits (radix : Z) (s : string) (acc : option Z) : option Z :=
  match s with
  | EmptyString => acc
  | String c s' =>
      match digit_value radix c with
      | Some d =>
          parse_digits radix s'
            (Some (match acc with Some a => a * radix + d | None => d end))
      | None => acc
      end
  end.

Definition strip_sign (s : string) : Z * string :=
  match s with
  | String "-" s' => (-1, s')
  | String "+" s' => (1, s')
  | _ => (1, s)
  end.

Definition strip_hex_prefix (s : string) : Z * string :=
  match s with
  | String "0" (String "x" s') => (16, s')
  | String "0" (String "X" s') => (16, s')
  | _ => (10, s)
  end.

Definition parseInt (v : value) : option Z :=
  let '(sign, s1) := strip_sign (trimStart (to_string v)) in
  let '(radix, s2) := strip_hex_prefix s1 in
  match parse_digits radix s2 None with
  | Some n => Some (round_double (sign * n))
  | None => None
  end.

(** *** Number to string, for template literals

    An integer below 2^53 is printed with all its digits.  A larger
    double is printed with the fewest significant digits that read back
    as the same double, nearest to it, followed by zeros up to 21 digits
    and in exponent notation beyond. *)

(** The number of decimal digits of a positive integer. *)
Definition digits (m : Z) : Z := Z.of_nat (String.length (pretty m)).

(** The integer with at most [k] significant digits, if any, that reads
    back as the double [x]. *)
Definition shortest_at (x k : Z) : option Z :=
  let p := digits x - k in
  if p <? 0 then Some x else
  let lo := x / 10 ^ p * 10 ^ p in
  let hi := lo + 10 ^ p in
  let lo_ok := round_double lo =? x in
  let hi_ok := round_double hi =? x in
  if lo_ok && hi_ok then
    if x - lo <? hi - x then Some lo
    else if hi - x <? x - lo then Some hi
    else if Z.even (lo / 10 ^ p) then Some lo else Some hi
  else if lo_ok then Some lo
  else if hi_ok then Some hi
  else None.

Fixpoint shortest_from (x k : Z) (fuel : nat) : Z :=
  match fuel with
  | O => x
  | S fuel' =>
      match shortest_at x k with
      | Some c => c
      | None => shortest_from x (k + 1) fuel'
      end
  end.

(** Seventeen significant digits tell any two doubles apart. *)
Definition shortest (x : Z) : Z := shortest_from x 1 17.

Fixpoint drop_trailing_zeros (s : string) : string :=
  match s with
  | EmptyString => EmptyString
  | String c t =>
      match drop_trailing_zeros t with
      | EmptyString => if (code c =? 48) then EmptyString else String c EmptyString
      | t' => String c t'
      end
  end.

(** [d.ddde+n] *)
Definition exponent_notation (c : Z) : string :=
  match drop_trailing_zeros (pretty c) with
  | EmptyString => EmptyString
  | String d EmptyString => String d ("e+" +:+ pretty (digits c - 1))
  | String d rest => String d ("." +:+ rest +:+ "e+" +:+ pretty (digits c - 1))
  end.

Definition number_to_string (n : option Z) : string :=
  match n with
  | None => "NaN"
  | Some z0 =>
      let z := round_double z0 in
      let m := Z.abs z in
      if m <? 2 ^ 53 then pretty z
      else
        (if z <? 0 then "-" else "") +:+
        (if m =? infinity then "Infinity"
         else let c := shortest m in
              if digits c <=? 21 then pretty c else exponent_notation c)
  end.

End JS.

Import JS.

(** ** Startup configuration (lines 19-38) *)

Section Config.

(** [const args = process.argv.slice(2)] *)
Variable args : list string.

Definition getArg (flag : string) (defaultValue : value) : value :=
  let index := indexOf args flag in
  if negb (index =? -1) && truthy (get args (index + 1))
  then get args (index + 1)
  else defaultValue.

Definition serialPort : value := getArg "--serial-port" (str "/dev/ttyUSB0").
Definition tcpHost : value := getArg "--tcp-host" (str "0.0.0.0").
Definition tcpPort : option Z := parseInt (getArg "--tcp-port" (str "5000")).

(** The options object given to [new SerialPort]. *)
Record SerialPortOptions := {
  path : value;
  baudRate : Z;
  autoOpen : bool;
}.

Definition serialPortOptions : SerialPortOptions :=
  {| path := serialPort; baudRate := 115200; autoOpen := false |}.

End Config.

(** ** Runtime objects *)

(** A socket object is identified by its handle. *)
Definition sock := positive.

(** A chunk of bytes (a Node.js [Buffer]). *)
Definition Buffer := list Byte.byte.

Record Error := { message : string }.

(** What the script reads from a [net.Socket], and how the runtime answers
    its calls: [write_throws] and [destroy_throws] say whether a call of
    [write] or [destroy] on the socket throws, and with which error. *)
Record Socket := {
  remoteAddress : option string;
  remotePort : option N;
  destroyed : bool;
  write_throws : option Error;
  destroy_throws : option Error;
}.

Definition mark_destroyed (s : Socket) : Socket :=
  {| remoteAddress := remoteAddress s;
     remotePort := remotePort s;
     destroyed := true;
     write_throws := write_throws s;
     destroy_throws := destroy_throws s |}.

(** Calls into the runtime, in the order the script makes them. *)
Inductive effect :=
| ConsoleLog (msg : string)
| ConsoleError (msg : string)
| ConsoleWarn (msg : string)
| SocketWrite (s : sock) (data : Buffer)
| SocketWriteThrew (s : sock) (data : Buffer) (e : Error)
| SocketDestroy (s : sock)
| SocketDestroyThrew (s : sock) (e : Error)
| SerialOpen (options : SerialPortOptions)
| SerialWrite (data : Buffer)
| SerialClose
| ServerListen (port : option Z) (host : value)
| ServerClose
| ProcessExit (code : Z).

(** The state shared by the callbacks.  [tcpClients] is the [Set] of
    sockets, kept in insertion order (the order a [Set] is iterated in);
    [listeners] holds, for a socket whose handlers were registered on
    connection, the [clientAddr] their closures captured. *)
Record State := {
  tcpClients : list sock;
  sockets : sock -> Socket;
  listeners : sock -> option string;
  isOpen : bool;
  trace : list effect;
}.

Definition set_tcpClients (l : list sock) (st : State) : State :=
  {| tcpClients := l; sockets := sockets st; listeners := listeners st;
     isOpen := isOpen st; trace := trace st |}.

Definition set_sockets (f : sock -> Socket) (st : State) : State :=
  {| tcpClients := tcpClients st; sockets := f; listeners := listeners st;
     isOpen := isOpen st; trace := trace st |}.

Definition set_listeners (f : sock -> option string) (st : State) : State :=
  {| tcpClients := tcpClients st; sockets := sockets st; listeners := f;
     isOpen := isOpen st; trace := trace st |}.

Definition set_isOpen (b : bool) (st : State) : State :=
  {| tcpClients := tcpClients st; sockets := sockets st;
     listeners := listeners st; isOpen := b; trace := trace st |}.

Definition add_trace (t : list effect) (st : State) : State :=
  {| tcpClients := tcpClients st; sockets := sockets st;
     listeners := listeners st; isOpen := isOpen st;
     trace := (trace st ++ t)%list |}.

(** ** The callback monad *)

(** A statement completes normally, throws, or ends the process. *)
Inductive outcome (A : Type) :=
| Normal (a : A)
| Throw (e : Error)
| Exit (code : Z).

Arguments Normal {A} a.
Arguments Throw {A} e.
Arguments Exit {A} code.

Definition M (A : Type) : Type := State -> outcome A * State.

#[global] Instance M_ret : MRet M := fun A a st => (Normal a, st).

#[global] Instance M_bind : MBind M := fun A B f m st =>
  match m st with
  | (Normal a, st') => f a st'
  | (Throw e, st') => (Throw e, st')
  | (Exit c, st') => (Exit c, st')
  end.

(** [try { body } catch (e) { handler e }] *)
Definition try_catch {A} (body : M A) (handler : Error -> M A) : M A :=
  fun st =>
    match body st with
    | (Throw e, st') => handler e st'
    | r => r
    end.

Definition gets {A} (f : State -> A) : M A := fun st => (Normal (f st), st).
Definition modify (f : State -> State) : M unit := fun st => (Normal tt, f st).
Definition emit (e : effect) : M unit := modify (add_trace [e]).
Definition throw {A} (e : Error) : M A := fun st => (Throw e, st).

(** [for (const x of l) body], and [l.forEach(body)]. *)
Fixpoint for_of {A} (l : list A) (body : A -> M unit) : M unit :=
  match l with
  | [] => mret tt
  | x :: l' => body x ;; for_of l' body
  end.

(** A loop that updates a local variable. *)
Fixpoint for_of_acc {A B} (l : list A) (body : B -> A -> M B) (acc : B) : M B :=
  match l with
  | [] => mret acc
  | x :: l' => acc' ← body acc x; for_of_acc l' body acc'
  end.

(** *** Primitives *)

Definition console_log (msg : string) : M unit := emit (ConsoleLog msg).
Definition console_error (msg : string) : M unit := emit (ConsoleError msg).
Definition console_warn (msg : string) : M unit := emit (ConsoleWarn msg).

(** [process.exit(code)] does not return. *)
Definition process_exit {A} (code : Z) : M A :=
  fun st => (Exit code, add_trace [ProcessExit code] st).

(** [Set.prototype.add], [delete] and [size]. *)
Definition Set_add (x : sock) (l : list sock) : list sock :=
  if decide (x ∈ l) then l else (l ++ [x])%list.
Definition Set_delete (x : sock) (l : list sock) : list sock :=
  filter (fun y => y ≠ x) l.

Definition tcpClients_add (x : sock) : M unit :=
  modify (fun st => set_tcpClients (Set_add x (tcpClients st)) st).
Definition tcpClients_delete (x : sock) : M unit :=
  modify (fun st => set_tcpClients (Set_delete x (tcpClients st)) st).
Definition tcpClients_size : M Z :=
  gets (fun st => Z.of_nat (length (tcpClients st))).

(** [client.destroyed] *)
Definition client_destroyed (client : sock) : M bool :=
  gets (fun st => destroyed (sockets st client)).

(** [client.write(data)] *)
Definition client_write (client : sock) (data : Buffer) : M unit :=
  w ← gets (fun st => write_throws (sockets st client));
  match w with
  | Some e => emit (SocketWriteThrew client data e) ;; throw e
  | None => emit (SocketWrite client data)
  end.

(** [client.destroy()]: when it returns, the socket is destroyed. *)
Definition client_destroy (client : sock) : M unit :=
  d ← gets (fun st => destroy_throws (sockets st client));
  match d with
  | Some e => emit (SocketDestroyThrew client e) ;; throw e
  | None =>
      emit (SocketDestroy client) ;;
      modify (fun st =>
        set_sockets (<[client := mark_destroyed (sockets st client)]> (sockets st)) st)
  end.

Definition serial_isOpen : M bool := gets isOpen.
Definition serial_write (data : Buffer) : M unit := emit (SerialWrite data).
Definition serial_close : M unit := emit SerialClose.
Definition server_close : M unit := emit ServerClose.

(** [server.listen(port, host, callback)] checks the port before anything
    else: it throws at once unless the port is an integer from 0 to
    65535. *)
Definition valid_port (port : option Z) : bool :=
  match port with
  | Some p => (0 <=? p) && (p <=? 65535)
  | None => false
  end.

(** The error of a bad port.  The text of its message depends on the
    version of the runtime; the record holds the error's code. *)
Definition bad_port_error : Error := {| message := "ERR_SOCKET_BAD_PORT" |}.

Definition server_listen (port : option Z) (host : value) : M unit :=
  emit (ServerListen port host) ;;
  if valid_port port then mret tt else throw bad_port_error.

(** ** The script *)

(** How a template literal renders a field that may be [undefined]. *)
Definition render_string (v : option string) : string :=
  match v with
  | Some s => s
  | None => "undefined"
  end.

Definition render_number (v : option N) : string :=
  match v with
  | Some n => pretty n
  | None => "undefined"
  end.

Section Bridge.

Variable args : list string.

(** *** Serial port handlers *)

(** [serialPortInstance.on('data', ...)], lines 44-67. *)
Definition serial_onData (data : Buffer) : M unit :=
  size ← tcpClients_size;
  if 0 <? size then
    clients ← gets tcpClients;
    deadClients ← for_of_acc clients (fun deadClients client =>
      try_catch
        (d ← client_destroyed client;
         (if negb d then client_write client data else mret tt) ;;
         mret deadClients)
        (fun error =>
           console_error ("Error writing to TCP client: " +:+ message error) ;;
           mret (deadClients ++ [client])%list)) [];
    for_of deadClients (fun client =>
      tcpClients_delete client ;;
      try_catch (client_destroy client) (fun e => mret tt))
  else mret tt.

(** [serialPortInstance.on('error', ...)], lines 69-71. *)
Definition serial_onError (error : Error) : M unit :=
  console_error ("Serial port error: " +:+ message error).

(** [serialPortInstance.on('close', ...)], lines 73-75. *)
Definition serial_onClose : M unit :=
  console_log "Serial port closed".

(** The callback given to [serialPortInstance.open], lines 78-84. *)
Definition serial_openCallback (error : option Error) : M unit :=
  match error return M unit with
  | Some e =>
      console_error ("Failed to open serial port: " +:+ message e) ;;
      process_exit 1
  | None => mret tt
  end ;;
  console_log ("Serial port opened: " +:+ to_string (serialPort args)).

(** *** Client socket handlers, lines 93-108 *)

Definition socket_onData (data : Buffer) : M unit :=
  o ← serial_isOpen;
  if (o : bool) then serial_write data
  else console_warn "Serial port not open, dropping TCP data".

Definition socket_onError (clientAddr : string) (error : Error) : M unit :=
  console_error
    ("TCP client error (" +:+ clientAddr +:+ "): " +:+ message error).

Definition socket_onClose (clientAddr : string) (socket : sock) : M unit :=
  console_log ("TCP client disconnected: " +:+ clientAddr) ;;
  tcpClients_delete socket.

(** *** Server handlers *)

(** The connection listener given to [createServer], lines 87-109. *)
Definition server_onConnection (socket : sock) : M unit :=
  clientAddr ← gets (fun st =>
    render_string (remoteAddress (sockets st socket)) +:+ ":" +:+
    render_number (remotePort (sockets st socket)));
  console_log ("TCP client connected: " +:+ clientAddr) ;;
  tcpClients_add socket ;;
  modify (fun st => set_listeners (<[socket := Some clientAddr]> (listeners st)) st).

(** [server.on('error', ...)], lines 111-113. *)
Definition server_onError (error : Error) : M unit :=
  console_error ("TCP server error: " +:+ message error).

(** The callback given to [server.listen], lines 115-119; [address] and
    [port] are the fields of [server.address()]. *)
Definition server_listenCallback (address : string) (port : N) : M unit :=
  console_log ("TCP server started on " +:+ address +:+ ":" +:+ pretty port) ;;
  console_log ("Connect to this bridge using: meshcli -t " +:+ address +:+
               " -p " +:+ pretty port +:+ " <command>").

(** *** Signal handlers, lines 122-148 *)

(** A line feed, for the message of the signal handlers. *)
Definition LF : string := String (ascii_of_N 10) EmptyString.

Definition onSIGINT : M unit :=
  console_log (LF +:+ "Shutting down...") ;;
  serial_close ;;
  clients ← gets tcpClients;
  for_of clients (fun client =>
    try_catch (client_destroy client) (fun e => mret tt)) ;;
  server_close ;;
  process_exit 0.

Definition onSIGTERM : M unit :=
  console_log (LF +:+ "Shutting down...") ;;
  serial_close ;;
  clients ← gets tcpClients;
  for_of clients (fun client =>
    try_catch (client_destroy client) (fun e => mret tt)) ;;
  server_close ;;
  process_exit 0.

(** *** The top level of the script *)

Definition main : M unit :=
  console_log "Starting Serial to TCP Bridge" ;;
  console_log ("Serial: " +:+ to_string (serialPort args)) ;;
  console_log ("TCP: " +:+ to_string (tcpHost args) +:+ ":" +:+
               number_to_string (tcpPort args)) ;;
  emit (SerialOpen (serialPortOptions args)) ;;
  server_listen (tcpPort args) (tcpHost args).

(** ** The event loop *)

Inductive signal := SIGINT | SIGTERM.

(** What the runtime delivers to the script.  [Runtime] stands for what
    happens outside the callbacks: the runtime changes the sockets' fields
    and the serial port's [isOpen]. *)
Inductive event :=
| SerialData (data : Buffer)
| SerialError (error : Error)
| SerialClosed
| SerialOpened (error : option Error)
| Connection (socket : sock)
| SocketData (socket : sock) (data : Buffer)
| SocketError (socket : sock) (error : Error)
| SocketClosed (socket : sock)
| ServerError (error : Error)
| ServerListening (address : string) (port : N)
| Signal (sig : signal)
| Runtime (socks : sock -> Socket) (open : bool).

(** A socket's handlers exist once the connection listener has run. *)
Definition with_listener (socket : sock) (h : string -> M unit) : M unit :=
  l ← gets (fun st => listeners st socket);
  match l with
  | Some clientAddr => h clientAddr
  | None => mret tt
  end.

Definition dispatch (ev : event) : M unit :=
  match ev with
  | SerialData data => serial_onData data
  | SerialError error => serial_onError error
  | SerialClosed => serial_onClose
  | SerialOpened error => serial_openCallback error
  | Connection socket => server_onConnection socket
  | SocketData socket data => with_listener socket (fun _ => socket_onData data)
  | SocketError socket error =>
      with_listener socket (fun clientAddr => socket_onError clientAddr error)
  | SocketClosed socket =>
      with_listener socket (fun clientAddr => socket_onClose clientAddr socket)
  | ServerError error => server_onError error
  | ServerListening address port => server_listenCallback address port
  | Signal SIGINT => onSIGINT
  | Signal SIGTERM => onSIGTERM
  | Runtime socks open => modify (fun st => set_isOpen open (set_sockets socks st))
  end.

(** The process after a sequence of events: still running, exited with a
    code, or stopped by an exception no callback caught. *)
Inductive status :=
| Running
| Exited (code : Z)
| Crashed (e : Error).

Fixpoint run (evs : list event) (st : State) : status * State :=
  match evs with
  | [] => (Running, st)
  | ev :: evs' =>
      match dispatch ev st with
      | (Normal _, st') => run evs' st'
      | (Throw e, st') => (Crashed e, st')
      | (Exit c, st') => (Exited c, st')
      end
  end.

End Bridge.

(** ** Vocabulary for the properties *)

(** Console output is how the script reports. *)
Definition is_console (e : effect) : bool :=
  match e with
  | ConsoleLog _ | ConsoleError _ | ConsoleWarn _ => true
  | _ => false
  end.

Definition console (t : list effect) : list effect := List.filter is_console t.

Definition is_destroy (e : effect) : bool :=
  match e with
  | SocketDestroy _ | SocketDestroyThrew _ _ => true
  | _ => false
  end.

Definition destroys (t : list effect) : list effect := List.filter is_destroy t.

(** [destroy] was called on [s] in the trace [t]. *)
Definition destroy_attempted (s : sock) (t : list effect) : Prop :=
  SocketDestroy s ∈ t \/ exists e, SocketDestroyThrew s e ∈ t.

(** [write] was called on [s] in the trace [t]. *)
Definition write_attempted (s : sock) (t : list effect) : Prop :=
  exists d, SocketWrite s d ∈ t \/ exists e, SocketWriteThrew s d e ∈ t.

(** The sockets a fan-out pass puts in [deadClients]: those on which
    [write] is called and throws. *)
Definition dead (st : State) (s : sock) : bool :=
  negb (destroyed (sockets st s)) &&
  match write_throws (sockets st s) with Some _ => true | None => false end.

(** The body of the first loop of [serial_onData]. *)
Definition write_body (data : Buffer) (deadClients : list sock) (client : sock)
    : M (list sock) :=
  try_catch
    (d ← client_destroyed client;
     (if negb d then client_write client data else mret tt) ;;
     mret deadClients)
    (fun error =>
       console_error ("Error writing to TCP client: " +:+ message error) ;;
       mret (deadClients ++ [client])%list).

(** What the first loop of a fan-out pass does for one socket. *)
Definition write_effects (data : Buffer) (st : State) (s : sock) : list effect :=
  if destroyed (sockets st s) then []
  else match write_throws (sockets st s) with
       | Some e =>
           [SocketWriteThrew s data e;
            ConsoleError ("Error writing to TCP client: " +:+ message e)]
       | None => [SocketWrite s data]
       end.

(** What the first loop of a fan-out pass prints for one socket. *)
Definition write_report (st : State) (s : sock) : list effect :=
  if destroyed (sockets st s) then []
  else match write_throws (sockets st s) with
       | Some e => [ConsoleError ("Error writing to TCP client: " +:+ message e)]
       | None => []
       end.

(** What a guarded [destroy] of one socket does. *)
Definition destroy_effect (st : State) (s : sock) : effect :=
  match destroy_throws (sockets st s) with
  | Some e => SocketDestroyThrew s e
  | None => SocketDestroy s
  end.

Definition destroy_state (s : sock) (st : State) : State :=
  match destroy_throws (sockets st s) with
  | Some e => add_trace [SocketDestroyThrew s e] st
  | None =>
      set_sockets (<[s := mark_destroyed (sockets st s)]> (sockets st))
        (add_trace [SocketDestroy s] st)
  end.

(** One turn of the second loop of [serial_onData]: delete, then destroy. *)
Definition cleanup_state (s : sock) (st : State) : State :=
  destroy_state s (set_tcpClients (Set_delete s (tcpClients st)) st).

(** The state after a loop whose turns are [step]. *)
Definition steps (step : sock -> State -> State) (l : list sock) (st : State)
    : State :=
  foldl (fun st s => step s st) st l.

(** What a signal handler does, from the state it starts in. *)
Definition shutdown_trace (st : State) : list effect :=
  ([ConsoleLog (LF +:+ "Shutting down..."); SerialClose]
     ++ (destroy_effect st <$> tcpClients st)
     ++ [ServerClose; ProcessExit 0])%list.

(** ** Sample inputs *)

Definition sample_error : Error := {| message := "EPIPE" |}.

Definition sample_data : Buffer := [Byte.x01; Byte.x02; Byte.x03].

Definition sample_socket (d : bool) (w x : option Error) : Socket :=
  {| remoteAddress := Some "10.0.0.7"; remotePort := Some 4242%N;
     destroyed := d; write_throws := w; destroy_throws := x |}.

(** Three clients: on socket 1 both [write] and [destroy] throw, socket 2
    is already destroyed, socket 3 is healthy. *)
Definition sample_state : State :=
  {| tcpClients := [1%positive; 2%positive; 3%positive];
     sockets := fun s =>
       if decide (s = 1%positive)
       then sample_socket false (Some sample_error) (Some sample_error)
       else if decide (s = 2%positive) then sample_socket true None None
       else sample_socket false None None;
     listeners := fun s =>
       if decide (s ∈ [1%positive; 2%positive; 3%positive])
       then Some "10.0.0.7:4242" else None;
     isOpen := false;
     trace := [] |}.

(** No client connected, serial port open. *)
Definition idle_state : State :=
  {| tcpClients := [];
     sockets := fun _ => sample_socket false None None;
     listeners := fun _ => None;
     isOpen := true;
     trace := [] |}.

(** ** The claims of the specification, where the script departs from them *)

(** A listener error ends the process with a non-zero exit status. *)
Definition listener_failure_is_fatal
    (args : list string) (error : Error) (st : State) : Prop :=
  exists code, code ≠ 0 /\ fst (run args [ServerError error] st) = Exited code.

(** A fan-out pass removes and force-closes every socket of the set whose
    write fails or that is already destroyed. *)
Definition fanout_removes_closed_sockets (data : Buffer) (st : State) : Prop :=
  forall s, s ∈ tcpClients st ->
    destroyed (sockets st s) = true \/ is_Some (write_throws (sockets st s)) ->
    (s ∉ tcpClients (snd (serial_onData data st))) /\
    destroy_attempted s
      (drop (length (trace st)) (trace (snd (serial_onData data st)))).

(** ** Vocabulary for the event loop *)

(** The state when the script starts: an empty client set, no socket
    handler registered, the serial port not open ([autoOpen: false]). *)
Definition initial_state (socks : sock -> Socket) : State :=
  {| tcpClients := [];
     sockets := socks;
     listeners := fun _ => None;
     isOpen := false;
     trace := [] |}.

(** The state once the top level of the script has run. *)
Definition boot (args : list string) (socks : sock -> Socket) : State :=
  snd (main args (initial_state socks)).

(** The process from its start: the events are handled once the top level
    has completed; an exception thrown by the top level stops the process
    before any event. *)
Definition start (args : list string) (socks : sock -> Socket)
    (evs : list event) : status * State :=
  match main args (initial_state socks) with
  | (Normal _, st) => run args evs st
  | (Throw e, st) => (Crashed e, st)
  | (Exit c, st) => (Exited c, st)
  end.

(** Every socket of the client set is in it once and has its handlers. *)
Definition bridge_inv (st : State) : Prop :=
  NoDup (tcpClients st) /\
  forall x, x ∈ tcpClients st -> is_Some (listeners st x).

(** The state a fan-out pass ends in. *)
Definition fanout_state (data : Buffer) (st : State) : State :=
  steps cleanup_state (List.filter (dead st) (tcpClients st))
    (add_trace (flat_map (write_effects data st) (tcpClients st)) st).

(** The calls of [write] on the socket [c] in a trace. *)
Definition is_write_on (c : sock) (e : effect) : bool :=
  match e with
  | SocketWrite s _ | SocketWriteThrew s _ _ => bool_decide (s = c)
  | _ => false
  end.

Definition writes_to (c : sock) (t : list effect) : list effect :=
  List.filter (is_write_on c) t.

(** The writes to the serial port in a trace. *)
Definition is_serial_write (e : effect) : bool :=
  match e with
  | SerialWrite _ => true
  | _ => false
  end.

Definition serial_writes (t : list effect) : list effect :=
  List.filter is_serial_write t.

(** The calls an event may cause, from the state it arrives in. *)
Definition allowed (ev : event) (st : State) (e : effect) : Prop :=
  match e with
  | ConsoleLog _ | ConsoleError _ | ConsoleWarn _ => True
  | SocketWrite s d =>
      ev = SerialData d /\ s ∈ tcpClients st /\
      destroyed (sockets st s) = false /\ write_throws (sockets st s) = None
  | SocketWriteThrew s d err =>
      ev = SerialData d /\ s ∈ tcpClients st /\
      destroyed (sockets st s) = false /\ write_throws (sockets st s) = Some err
  | SocketDestroy s =>
      s ∈ tcpClients st /\ destroy_throws (sockets st s) = None /\
      ((exists d, ev = SerialData d /\ dead st s = true) \/ exists sig, ev = Signal sig)
  | SocketDestroyThrew s err =>
      s ∈ tcpClients st /\ destroy_throws (sockets st s) = Some err /\
      ((exists d, ev = SerialData d /\ dead st s = true) \/ exists sig, ev = Signal sig)
  | SerialWrite d =>
      exists s, ev = SocketData s d /\ is_Some (listeners st s) /\ isOpen st = true
  | SerialClose | ServerClose => exists sig, ev = Signal sig
  | ProcessExit c =>
      (c = 1 /\ exists err, ev = SerialOpened (Some err)) \/
      (c = 0 /\ exists sig, ev = Signal sig)
  | SerialOpen _ | ServerListen _ _ => False
  end.

(** The state a signal handler ends in. *)
Definition shutdown_state (st : State) : State :=
  add_trace [ProcessExit 0]
    (add_trace [ServerClose]
       (steps destroy_state (tcpClients st)
          (add_trace [SerialClose]
             (add_trace [ConsoleLog (LF +:+ "Shutting down...")] st)))).

(** The calls one event adds to the trace, and those a run of events adds. *)
Definition event_trace (args : list string) (ev : event) (st : State)
    : list effect :=
  drop (length (trace st)) (trace (snd (dispatch args ev st))).

Definition run_trace (args : list string) (evs : list event) (st : State)
    : list effect :=
  drop (length (trace st)) (trace (snd (run args evs st))).

(** [write] was called on [s] with the chunk [d] in the trace [t]. *)
Definition written (s : sock) (d : Buffer) (t : list effect) : Prop :=
  SocketWrite s d ∈ t \/ exists e, SocketWriteThrew s d e ∈ t.

(** Opening the serial port and listening. *)
Definition is_startup_call (e : effect) : bool :=
  match e with
  | SerialOpen _ | ServerListen _ _ => true
  | _ => false
  end.

(** A client is connected, the serial port is open. *)
Definition connected_state : State :=
  {| tcpClients := [7%positive];
     sockets := fun _ => sample_socket false None None;
     listeners := fun s =>
       if decide (s = 7%positive) then Some "10.0.0.7:4242" else None;
     isOpen := true;
     trace := [] |}.

(** The effect is no call on the socket [s]. *)
Definition off_socket (s : sock) (e : effect) : Prop :=
  match e with
  | SocketWrite s' _ | SocketWriteThrew s' _ _
  | SocketDestroy s' | SocketDestroyThrew s' _ => s' ≠ s
  | _ => True
  end.

(** ** Tactics *)

(** Unfolds the monad and the primitives. *)
Ltac step_m :=
  cbv [mbind M_bind mret M_ret try_catch gets modify emit throw
       console_log console_error console_warn process_exit
       tcpClients_add tcpClients_delete tcpClients_size
       client_destroyed client_write client_destroy
       serial_isOpen serial_write serial_close server_close].

(** Settles a decidable closed proposition by evaluation. *)
Ltac by_decide := apply (bool_decide_unpack _); vm_compute; exact I.

(** Settles the membership of an effect in a closed trace by evaluation. *)
Ltac by_elem :=
  apply list_elem_of_In; vm_compute; repeat (first [left; reflexivity | right]).

(** ** Examples *)

Example getArg_ex1 :
  getArg ["--serial-port"; "/dev/ttyACM0"; "--tcp-port"; "0x10"] "--serial-port" (str "d")
  = str "/dev/ttyACM0".
Proof. reflexivity. Qed.

Example tcpPort_ex1 : tcpPort ["--tcp-port"; "  0x1F"] = Some 31.
Proof. reflexivity. Qed.

Example tcpPort_ex2 : tcpPort ["--tcp-port"; "80abc"] = Some 80.
Proof. reflexivity. Qed.

Example tcpPort_ex3 : tcpPort ["--tcp-port"; "abc"] = None.
Proof. reflexivity. Qed.

Example number_to_string_ex : number_to_string (tcpPort []) = "5000".
Proof. vm_compute. reflexivity. Qed.

Example parseInt_rounds :
  parseInt (str "9007199254740993") = Some 9007199254740992.
Proof. vm_compute. reflexivity. Qed.

Example number_to_string_large :
  number_to_string (Some (2 ^ 60)) = "1152921504606847000" /\
  number_to_string (Some (2 ^ 70)) = "1.1805916207174113e+21" /\
  number_to_string (parseInt (str "100000000000000000000000")) = "1e+23".
Proof. split_and!; vm_compute; reflexivity. Qed.

Example bad_port_stops_start :
  fst (start ["--tcp-port"; "70000"] (sockets idle_state) [SerialClosed])
  = Crashed bad_port_error.
Proof. vm_compute. reflexivity. Qed.

Example fanout_sample :
  trace (snd (serial_onData sample_data sample_state))
  = [SocketWriteThrew 1%positive sample_data sample_error;
     ConsoleError "Error writing to TCP client: EPIPE";
     SocketWrite 3%positive sample_data;
     SocketDestroyThrew 1%positive sample_error]
  /\ tcpClients (snd (serial_onData sample_data sample_state))
     = [2%positive; 3%positive].
Proof. split; vm_compute; reflexivity. Qed.

Example connection_sample :
  trace (snd (dispatch [] (Connection 7%positive) idle_state))
  = [ConsoleLog "TCP client connected: 10.0.0.7:4242"]
  /\ tcpClients (snd (dispatch [] (Connection 7%positive) idle_state))
     = [7%positive].
Proof. split; vm_compute; reflexivity. Qed.

Example main_sample :
  trace (snd (main ["--tcp-port"; "6000"] idle_state))
  = [ConsoleLog "Starting Serial to TCP Bridge";
     ConsoleLog "Serial: /dev/ttyUSB0";
     ConsoleLog "TCP: 0.0.0.0:6000";
     SerialOpen {| path := str "/dev/ttyUSB0"; baudRate := 115200;
                   autoOpen := false |};
     ServerListen (Some 6000) (str "0.0.0.0")].
Proof. vm_compute. reflexivity. Qed.

(** ** Reasoning about the callbacks *)

Lemma add_trace_nil st : add_trace [] st = st.
Proof. destruct st; unfold add_trace; simpl. by rewrite app_nil_r. Qed.

Lemma add_trace_app t1 t2 st :
  add_trace t2 (add_trace t1 st) = add_trace (t1 ++ t2) st.
Proof. unfold add_trace; simpl. by rewrite app_assoc. Qed.

Section Loops.

Variable data : Buffer.

Lemma write_body_step acc s st :
  write_body data acc s st =
  (Normal (acc ++ if dead st s then [s] else [])%list,
   add_trace (write_effects data st s) st).
Proof.
  unfold write_body, dead, write_effects. step_m.
  destruct (destroyed (sockets st s)); simpl.
  - by rewrite app_nil_r, add_trace_nil.
  - destruct (write_throws (sockets st s)) as [e|]; simpl.
    + by rewrite add_trace_app.
    + by rewrite app_nil_r.
Qed.

Lemma write_loop l : forall acc st,
  for_of_acc l (write_body data) acc st =
  (Normal (acc ++ List.filter (dead st) l)%list,
   add_trace (flat_map (write_effects data st) l) st).
Proof.
  induction l as [|s l IH]; intros acc st; simpl.
  - by rewrite app_nil_r, add_trace_nil.
  - unfold mbind, M_bind. rewrite write_body_step, IH, add_trace_app.
    change (dead (add_trace _ st)) with (dead st).
    change (write_effects data (add_trace _ st)) with (write_effects data st).
    destruct (dead st s); simpl; by rewrite <- ?app_assoc, ?app_nil_r.
Qed.

End Loops.

(** A guarded [destroy]: [try { client.destroy(); } catch (e) { }]. *)
Lemma guarded_destroy_step s st :
  try_catch (client_destroy s) (fun _ => mret tt) st = (Normal tt, destroy_state s st).
Proof.
  unfold destroy_state. step_m.
  destruct (destroy_throws (sockets st s)); reflexivity.
Qed.

Lemma destroy_state_trace s st :
  trace (destroy_state s st) = (trace st ++ [destroy_effect st s])%list.
Proof.
  unfold destroy_state, destroy_effect.
  destruct (destroy_throws (sockets st s)); reflexivity.
Qed.

Lemma destroy_state_tcpClients s st :
  tcpClients (destroy_state s st) = tcpClients st.
Proof. unfold destroy_state. destruct (destroy_throws (sockets st s)); reflexivity. Qed.

Lemma destroy_state_oracle s st x :
  destroy_throws (sockets (destroy_state s st) x) = destroy_throws (sockets st x).
Proof.
  unfold destroy_state.
  destruct (destroy_throws (sockets st s)) eqn:E; simpl; [done|].
  destruct (decide (s = x)) as [->|Hne].
  - by rewrite fn_lookup_insert.
  - by rewrite fn_lookup_insert_ne.
Qed.

Lemma destroy_state_frame s st x :
  x ≠ s -> sockets (destroy_state s st) x = sockets st x.
Proof.
  intros Hne. unfold destroy_state.
  destruct (destroy_throws (sockets st s)); simpl; [done|].
  by rewrite fn_lookup_insert_ne.
Qed.

(** A loop whose body always completes runs its steps in order. *)
Lemma for_of_steps {A} (body : A -> M unit) (step : A -> State -> State) :
  (forall x st, body x st = (Normal tt, step x st)) ->
  forall l st, for_of l body st = (Normal tt, foldl (fun st x => step x st) st l).
Proof.
  intros Hbody l. induction l as [|x l IH]; intros st; simpl; [done|].
  unfold mbind, M_bind. by rewrite Hbody, IH.
Qed.

(** Loops that destroy each socket of a list, whatever else a step does
    to the client set. *)
Section DestroyLoop.

Variable step : sock -> State -> State.

Hypothesis step_trace : forall s st,
  trace (step s st) = (trace st ++ [destroy_effect st s])%list.
Hypothesis step_oracle : forall s st x,
  destroy_throws (sockets (step s st) x) = destroy_throws (sockets st x).
Hypothesis step_frame : forall s st x,
  x ≠ s -> sockets (step s st) x = sockets st x.

Lemma steps_oracle l : forall st x,
  destroy_throws (sockets (steps step l st) x) = destroy_throws (sockets st x).
Proof.
  unfold steps. induction l as [|s l IH]; intros st x; simpl; [done|].
  by rewrite IH, step_oracle.
Qed.

Lemma steps_trace l : forall st,
  trace (steps step l st) = (trace st ++ (destroy_effect st <$> l))%list.
Proof.
  unfold steps. induction l as [|s l IH]; intros st; simpl.
  - by rewrite app_nil_r.
  - rewrite IH, step_trace, <- app_assoc. simpl.
    do 2 f_equal. apply list_fmap_ext. intros _ x _.
    unfold destroy_effect. by rewrite step_oracle.
Qed.

Lemma steps_frame l : forall st x,
  x ∉ l -> sockets (steps step l st) x = sockets st x.
Proof.
  unfold steps. induction l as [|s l IH]; intros st x Hx; simpl; [done|].
  apply not_elem_of_cons in Hx as [Hne Hx].
  by rewrite IH, step_frame.
Qed.

End DestroyLoop.

(** One turn of the second loop of [serial_onData]. *)
Lemma cleanup_step s st :
  (tcpClients_delete s ;; try_catch (client_destroy s) (fun _ => mret tt)) st
  = (Normal tt, cleanup_state s st).
Proof.
  unfold mbind, M_bind, tcpClients_delete, modify.
  by rewrite guarded_destroy_step.
Qed.

Lemma cleanup_tcpClients l : forall st,
  tcpClients (foldl (fun st s => cleanup_state s st) st l)
  = filter (fun y => y ∉ l) (tcpClients st).
Proof.
  induction l as [|s l IH]; intros st; simpl.
  - induction (tcpClients st) as [|y cs IHcs]; [done|].
    rewrite filter_cons_True by apply not_elem_of_nil. by f_equal.
  - rewrite IH. unfold cleanup_state. rewrite destroy_state_tcpClients. simpl.
    unfold Set_delete. rewrite list_filter_filter.
    apply list_filter_iff. intros y. rewrite not_elem_of_cons. tauto.
Qed.

Lemma shutdown_tcpClients l : forall st,
  tcpClients (foldl (fun st s => destroy_state s st) st l) = tcpClients st.
Proof.
  induction l as [|s l IH]; intros st; simpl; [done|].
  by rewrite IH, destroy_state_tcpClients.
Qed.

(** Removing the members of a sublist selected by a test keeps exactly
    the elements that fail the test. *)
Lemma filter_not_in_selected (p : sock -> bool) (l : list sock) :
  filter (fun y => y ∉ List.filter p l) l = List.filter (fun y => negb (p y)) l.
Proof.
  assert (H : forall k, (forall y, y ∈ k -> y ∈ l) ->
            filter (fun y => y ∉ List.filter p l) k
            = List.filter (fun y => negb (p y)) k).
  { induction k as [|y k IH]; intros Hk; [done|].
    simpl. destruct (p y) eqn:E; simpl.
    - rewrite filter_cons_False.
      + apply IH. intros z Hz. apply Hk. by right.
      + intros Hn. apply Hn. apply list_elem_of_In, filter_In. split; [|done].
        apply list_elem_of_In, Hk. by left.
    - rewrite filter_cons_True.
      + f_equal. apply IH. intros z Hz. apply Hk. by right.
      + intros Hy. apply list_elem_of_In, filter_In in Hy as [_ Hy]. congruence. }
  by apply H.
Qed.

Lemma cleanup_state_trace s st :
  trace (cleanup_state s st) = (trace st ++ [destroy_effect st s])%list.
Proof. unfold cleanup_state. by rewrite destroy_state_trace. Qed.

Lemma cleanup_state_oracle s st x :
  destroy_throws (sockets (cleanup_state s st) x) = destroy_throws (sockets st x).
Proof. unfold cleanup_state. by rewrite destroy_state_oracle. Qed.

Lemma cleanup_state_frame s st x :
  x ≠ s -> sockets (cleanup_state s st) x = sockets st x.
Proof. intros H. unfold cleanup_state. by rewrite destroy_state_frame. Qed.

(** The whole fan-out pass: the outcome, the client set and the trace. *)
Lemma fanout_pass data st :
  exists st',
    serial_onData data st = (Normal tt, st') /\
    tcpClients st' = List.filter (fun s => negb (dead st s)) (tcpClients st) /\
    trace st' =
      (trace st ++ flat_map (write_effects data st) (tcpClients st)
         ++ (destroy_effect st <$> List.filter (dead st) (tcpClients st)))%list /\
    (forall x, x ∉ List.filter (dead st) (tcpClients st) ->
               sockets st' x = sockets st x).
Proof.
  unfold serial_onData, tcpClients_size, gets. unfold mbind at 1, M_bind at 1.
  destruct (tcpClients st) as [|c cs] eqn:Hcs.
  - exists st. simpl. rewrite Hcs. simpl. by rewrite app_nil_r.
  - change (0 <? Z.of_nat (length (c :: cs))) with true. cbv iota.
    unfold mbind at 1, M_bind at 1. rewrite Hcs.
    unfold mbind at 1, M_bind at 1.
    change (for_of_acc (c :: cs) _ [] st)
      with (for_of_acc (c :: cs) (write_body data) [] st).
    rewrite write_loop. rewrite app_nil_l.
    rewrite (for_of_steps _ cleanup_state cleanup_step).
    rewrite <- Hcs. set (dl := List.filter (dead st) (tcpClients st)).
    set (stw := add_trace _ st).
    exists (steps cleanup_state dl stw). split; [reflexivity|].
    split; [|split].
    + unfold steps. rewrite cleanup_tcpClients.
      apply filter_not_in_selected.
    + rewrite (steps_trace _ cleanup_state_trace cleanup_state_oracle).
      subst stw. simpl trace. by rewrite <- app_assoc.
    + intros x Hx.
      by rewrite (steps_frame _ cleanup_state_frame).
Qed.

(** The signal handlers: the outcome, the client set and the trace. *)
Lemma shutdown_body st :
  exists st',
    onSIGINT st = (Exit 0, st') /\
    onSIGTERM st = (Exit 0, st') /\
    tcpClients st' = tcpClients st /\
    trace st' = (trace st ++ shutdown_trace st)%list.
Proof.
  unfold onSIGINT, onSIGTERM. step_m.
  rewrite (for_of_steps _ destroy_state guarded_destroy_step).
  eexists. split; [reflexivity|]. split; [reflexivity|].
  set (st1 := add_trace [SerialClose] _).
  change (tcpClients st1) with (tcpClients st).
  change (foldl _ st1 (tcpClients st)) with (steps destroy_state (tcpClients st) st1).
  split.
  - simpl. unfold steps. by rewrite shutdown_tcpClients.
  - simpl trace.
    rewrite (steps_trace _ destroy_state_trace destroy_state_oracle).
    unfold shutdown_trace. subst st1. simpl. by rewrite <- !app_assoc.
Qed.

(** *** Reading a pass's trace *)

Lemma console_app t1 t2 : console (t1 ++ t2) = (console t1 ++ console t2)%list.
Proof. apply List.filter_app. Qed.

Lemma destroys_app t1 t2 : destroys (t1 ++ t2) = (destroys t1 ++ destroys t2)%list.
Proof. apply List.filter_app. Qed.

Lemma console_writes data st l :
  console (flat_map (write_effects data st) l) = flat_map (write_report st) l.
Proof.
  induction l as [|s l IH]; [done|]. simpl. rewrite console_app, IH. f_equal.
  unfold write_effects, write_report.
  destruct (destroyed (sockets st s)); [done|].
  by destruct (write_throws (sockets st s)).
Qed.

Lemma destroys_writes data st l :
  destroys (flat_map (write_effects data st) l) = [].
Proof.
  induction l as [|s l IH]; [done|]. simpl. rewrite destroys_app, IH.
  unfold write_effects.
  destruct (destroyed (sockets st s)); [done|].
  by destruct (write_throws (sockets st s)).
Qed.

Lemma console_destroys st l : console (destroy_effect st <$> l) = [].
Proof.
  induction l as [|s l IH]; [done|]. simpl. rewrite <- IH.
  unfold destroy_effect at 1. by destruct (destroy_throws (sockets st s)).
Qed.

Lemma destroys_destroys st l :
  destroys (destroy_effect st <$> l) = destroy_effect st <$> l.
Proof.
  induction l as [|s l IH]; [done|].
  change (destroy_effect st <$> s :: l)
    with (destroy_effect st s :: (destroy_effect st <$> l)).
  unfold destroys in *. simpl.
  assert (is_destroy (destroy_effect st s) = true) as ->
    by (unfold destroy_effect; by destruct (destroy_throws (sockets st s))).
  by rewrite IH.
Qed.

Lemma elem_of_write_effects e data st l :
  e ∈ flat_map (write_effects data st) l ->
  exists s, s ∈ l /\ destroyed (sockets st s) = false /\
    (e = SocketWrite s data \/
     exists err, write_throws (sockets st s) = Some err /\
       (e = SocketWriteThrew s data err \/
        e = ConsoleError ("Error writing to TCP client: " +:+ message err))).
Proof.
  intros He. apply list_elem_of_In, in_flat_map in He as (s & Hs & He).
  apply list_elem_of_In in Hs. apply list_elem_of_In in He.
  exists s. split; [done|]. unfold write_effects in He.
  destruct (destroyed (sockets st s)); [by apply elem_of_nil in He|].
  split; [done|].
  destruct (write_throws (sockets st s)) as [err|].
  - right. exists err. split; [done|].
    apply elem_of_cons in He as [->|He]; [by left|].
    apply list_elem_of_singleton in He as ->. by right.
  - apply list_elem_of_singleton in He as ->. by left.
Qed.

Lemma write_effects_elem_of data st l s :
  s ∈ l -> destroyed (sockets st s) = false ->
  match write_throws (sockets st s) with
  | Some err => SocketWriteThrew s data err
  | None => SocketWrite s data
  end ∈ flat_map (write_effects data st) l.
Proof.
  intros Hs Hd. apply list_elem_of_In, in_flat_map. exists s.
  split; [by apply list_elem_of_In|]. unfold write_effects. rewrite Hd.
  destruct (write_throws (sockets st s)); by left.
Qed.

Lemma no_destroy_in_writes s data st l :
  ~ destroy_attempted s (flat_map (write_effects data st) l).
Proof.
  intros [H|[e H]]; apply elem_of_write_effects in H
    as (x & _ & _ & [H|(err & _ & [H|H])]); discriminate.
Qed.

Lemma destroy_attempted_destroys s st l :
  destroy_attempted s (destroy_effect st <$> l) <-> s ∈ l.
Proof.
  split.
  - intros [H|[e H]]; apply list_elem_of_fmap in H as (x & Hx & Hin);
      unfold destroy_effect in Hx;
      destruct (destroy_throws (sockets st x)); by simplify_eq.
  - intros Hs. unfold destroy_attempted.
    pose proof (list_elem_of_fmap_2 (destroy_effect st) l s Hs) as H.
    unfold destroy_effect at 1 in H.
    destruct (destroy_throws (sockets st s)) as [e|]; [right; by exists e|by left].
Qed.

Lemma no_write_in_destroys s st l :
  ~ write_attempted s (destroy_effect st <$> l).
Proof.
  intros [d [H|[e H]]]; apply list_elem_of_fmap in H as (x & Hx & _);
    unfold destroy_effect in Hx;
    destruct (destroy_throws (sockets st x)); discriminate.
Qed.

Lemma destroy_attempted_app s t1 t2 :
  destroy_attempted s (t1 ++ t2) <-> destroy_attempted s t1 \/ destroy_attempted s t2.
Proof.
  unfold destroy_attempted. setoid_rewrite elem_of_app. firstorder.
Qed.

Lemma write_attempted_app s t1 t2 :
  write_attempted s (t1 ++ t2) <-> write_attempted s t1 \/ write_attempted s t2.
Proof.
  unfold write_attempted. setoid_rewrite elem_of_app. firstorder.
Qed.

Lemma elem_of_filter_bool (p : sock -> bool) l s :
  s ∈ List.filter p l <-> s ∈ l /\ p s = true.
Proof. rewrite !list_elem_of_In. apply filter_In. Qed.

(** ** Properties of the script *)

Lemma not_written_if_destroyed s data st l :
  destroyed (sockets st s) = true ->
  ~ write_attempted s (flat_map (write_effects data st) l).
Proof.
  intros Hd [d [H|[e H]]]; apply elem_of_write_effects in H
    as (x & _ & Hx & [H|(err & _ & [H|H])]); simplify_eq; congruence.
Qed.

(** *** Listener errors *)

(** C1, as the script has it: a listener error (a failed bind at startup
    is one) is reported on the error console and the process keeps
    running: the handler completes normally and later events are still
    handled. *)
Theorem server_onError_reports_and_continues args error st evs :
  server_onError error st
  = (Normal tt,
     add_trace [ConsoleError ("TCP server error: " +:+ message error)] st) /\
  run args (ServerError error :: evs) st
  = run args evs
      (add_trace [ConsoleError ("TCP server error: " +:+ message error)] st).
Proof. split; reflexivity. Qed.

(** C1, as stated, fails: after a listener error the process has not
    exited. *)
Lemma listener_error_not_fatal :
  ~ listener_failure_is_fatal [] sample_error sample_state.
Proof. intros (code & _ & H). vm_compute in H. discriminate. Qed.

(** *** Fan-out *)

(** C2, as the script has it: in a fan-out pass a socket is marked dead
    when [write] is called on it and throws; it is then removed from the
    client set and [destroy] is called on it.  A socket already destroyed
    is skipped: nothing is written to it, it stays in the set and the pass
    does not call [destroy] on it.  A socket whose write succeeds stays in
    the set. *)
Theorem fanout_removes_failed_writers data st s :
  s ∈ tcpClients st ->
  exists st' tr,
    serial_onData data st = (Normal tt, st') /\
    trace st' = (trace st ++ tr)%list /\
    match destroyed (sockets st s), write_throws (sockets st s) with
    | false, Some e =>
        SocketWriteThrew s data e ∈ tr /\
        (s ∉ tcpClients st') /\ destroy_attempted s tr
    | false, None =>
        SocketWrite s data ∈ tr /\
        s ∈ tcpClients st' /\ ~ destroy_attempted s tr
    | true, _ =>
        ~ write_attempted s tr /\
        s ∈ tcpClients st' /\ ~ destroy_attempted s tr
    end.
Proof.
  intros Hs. destruct (fanout_pass data st) as (st' & Hrun & Hcl & Htr & _).
  exists st'. eexists. split; [done|]. split; [exact Htr|].
  pose proof (write_effects_elem_of data st _ s Hs) as Hw.
  pose proof (no_destroy_in_writes s data st (tcpClients st)) as Hnd.
  pose proof (no_write_in_destroys s st (List.filter (dead st) (tcpClients st))) as Hnw.
  pose proof (not_written_if_destroyed s data st (tcpClients st)) as Hnwd.
  assert (Hdead : dead st s = negb (destroyed (sockets st s)) &&
            match write_throws (sockets st s) with Some _ => true | None => false end)
    by reflexivity.
  destruct (destroyed (sockets st s)), (write_throws (sockets st s));
    simpl in Hdead;
    rewrite Hcl, ?elem_of_filter_bool, destroy_attempted_app, ?write_attempted_app,
      destroy_attempted_destroys, ?elem_of_filter_bool, ?elem_of_app, Hdead;
    simpl; intuition congruence.
Qed.

(** The theorem at the sample state, for the socket that is already
    destroyed. *)
Lemma fanout_removes_failed_writers_witness :
  2%positive ∈ tcpClients sample_state /\
  exists st' tr,
    serial_onData sample_data sample_state = (Normal tt, st') /\
    trace st' = (trace sample_state ++ tr)%list /\
    ~ write_attempted 2%positive tr /\
    2%positive ∈ tcpClients st' /\ ~ destroy_attempted 2%positive tr.
Proof.
  split; [by_decide|].
  apply (fanout_removes_failed_writers sample_data sample_state 2%positive).
  by_decide.
Defined.

(** C2, as stated, fails: a socket that is already destroyed is neither
    removed from the client set nor force-closed by the pass. *)
Lemma fanout_keeps_destroyed_socket :
  ~ fanout_removes_closed_sockets sample_data sample_state.
Proof.
  intros H. destruct (H 2%positive) as [Hout _].
  - by_decide.
  - by left.
  - apply Hout. by_decide.
Qed.

(** C3: when the write to client A throws in a fan-out pass and client B
    of the set is healthy, B is still written the same chunk in that
    pass and stays in the client set, untouched; A is out of the set
    after the pass. *)
Theorem fanout_isolates_failure data st A B e :
  A ∈ tcpClients st -> B ∈ tcpClients st ->
  destroyed (sockets st A) = false -> write_throws (sockets st A) = Some e ->
  destroyed (sockets st B) = false -> write_throws (sockets st B) = None ->
  exists st' tr,
    serial_onData data st = (Normal tt, st') /\
    trace st' = (trace st ++ tr)%list /\
    SocketWriteThrew A data e ∈ tr /\
    SocketWrite B data ∈ tr /\
    B ∈ tcpClients st' /\
    sockets st' B = sockets st B /\
    (A ∉ tcpClients st').
Proof.
  intros HA HB HdA HwA HdB HwB.
  destruct (fanout_pass data st) as (st' & Hrun & Hcl & Htr & Hfr).
  exists st'. eexists. split; [done|]. split; [exact Htr|].
  assert (HdeadA : dead st A = true) by (unfold dead; by rewrite HdA, HwA).
  assert (HdeadB : dead st B = false) by (unfold dead; by rewrite HdB, HwB).
  pose proof (write_effects_elem_of data st _ A HA HdA) as HwrA.
  pose proof (write_effects_elem_of data st _ B HB HdB) as HwrB.
  rewrite HwA in HwrA. rewrite HwB in HwrB.
  rewrite Hcl, !elem_of_app, !elem_of_filter_bool, HdeadA, HdeadB.
  repeat split; try (by left); try done.
  - apply Hfr. rewrite elem_of_filter_bool. intros [_ ?]. congruence.
  - intros [_ ?]. discriminate.
Qed.

(** The theorem at the sample state: socket 1 fails, socket 3 is healthy. *)
Lemma fanout_isolates_failure_witness :
  1%positive ∈ tcpClients sample_state /\
  3%positive ∈ tcpClients sample_state /\
  destroyed (sockets sample_state 1%positive) = false /\
  write_throws (sockets sample_state 1%positive) = Some sample_error /\
  destroyed (sockets sample_state 3%positive) = false /\
  write_throws (sockets sample_state 3%positive) = None /\
  exists st' tr,
    serial_onData sample_data sample_state = (Normal tt, st') /\
    trace st' = (trace sample_state ++ tr)%list /\
    SocketWriteThrew 1%positive sample_data sample_error ∈ tr /\
    SocketWrite 3%positive sample_data ∈ tr /\
    3%positive ∈ tcpClients st' /\
    sockets st' 3%positive = sockets sample_state 3%positive /\
    (1%positive ∉ tcpClients st').
Proof.
  split_and!; try reflexivity; try by_decide.
  apply (fanout_isolates_failure sample_data sample_state 1%positive 3%positive
           sample_error);
    first [reflexivity | by_decide].
Defined.

(** C4: a chunk that arrives from the serial port while the client set is
    empty is discarded.  The handler changes nothing at all: no call is
    made, so no write is attempted, the client set is the same, and the
    state keeps no copy of the chunk, so the process behaves from then on,
    whatever events follow (connections included), as if the chunk had
    never arrived. *)
Theorem serial_data_discarded_without_clients args data st :
  tcpClients st = [] ->
  serial_onData data st = (Normal tt, st) /\
  forall evs, run args (SerialData data :: evs) st = run args evs st.
Proof.
  intros Hcs.
  assert (H : serial_onData data st = (Normal tt, st)).
  { unfold serial_onData. step_m. by rewrite Hcs. }
  split; [exact H|]. intros evs. cbn [run dispatch]. by rewrite H.
Qed.

(** The theorem at the idle state. *)
Lemma serial_data_discarded_without_clients_witness :
  tcpClients idle_state = [] /\
  serial_onData sample_data idle_state = (Normal tt, idle_state) /\
  forall evs,
    run [] (SerialData sample_data :: evs) idle_state = run [] evs idle_state.
Proof.
  split; [reflexivity|].
  exact (serial_data_discarded_without_clients [] sample_data idle_state eq_refl).
Defined.

(** *** Client socket handlers *)

(** C5: data from a client is written verbatim to the serial port when it
    is open; when it is not, the data is dropped with a warning.  In both
    cases the handler completes normally, and the event leaves the client
    set and the sockets as they were, with no call of [destroy]. *)
Theorem socket_data_forwarded_or_dropped args socket data st :
  socket_onData data st
  = (Normal tt,
     add_trace
       [if isOpen st then SerialWrite data
        else ConsoleWarn "Serial port not open, dropping TCP data"] st) /\
  exists st' tr,
    dispatch args (SocketData socket data) st = (Normal tt, st') /\
    tcpClients st' = tcpClients st /\
    sockets st' = sockets st /\
    trace st' = (trace st ++ tr)%list /\
    destroys tr = [].
Proof.
  assert (H : socket_onData data st
    = (Normal tt,
       add_trace
         [if isOpen st then SerialWrite data
          else ConsoleWarn "Serial port not open, dropping TCP data"] st)).
  { unfold socket_onData. step_m. by destruct (isOpen st). }
  split; [exact H|].
  unfold dispatch, with_listener. step_m.
  destruct (listeners st socket) as [addr|].
  - rewrite H. eexists. eexists. repeat split. by destruct (isOpen st).
  - exists st, []. repeat split. by rewrite app_nil_r.
Qed.

(** C6: when opening the serial port fails, the error is reported and the
    process exits with status 1, nothing else being run; when it succeeds,
    the open is reported and the process goes on. *)
Theorem serial_open_failure_is_fatal args e evs st :
  serial_openCallback args (Some e) st
  = (Exit 1,
     add_trace [ConsoleError ("Failed to open serial port: " +:+ message e);
                ProcessExit 1] st) /\
  run args (SerialOpened (Some e) :: evs) st
  = (Exited 1,
     add_trace [ConsoleError ("Failed to open serial port: " +:+ message e);
                ProcessExit 1] st) /\
  serial_openCallback args None st
  = (Normal tt,
     add_trace [ConsoleLog ("Serial port opened: " +:+ to_string (serialPort args))]
       st) /\
  run args (SerialOpened None :: evs) st
  = run args evs
      (add_trace [ConsoleLog ("Serial port opened: " +:+ to_string (serialPort args))]
         st).
Proof.
  assert (H : serial_openCallback args (Some e) st
    = (Exit 1,
       add_trace [ConsoleError ("Failed to open serial port: " +:+ message e);
                  ProcessExit 1] st)).
  { unfold serial_openCallback. step_m. by rewrite add_trace_app. }
  split_and!; try reflexivity; [exact H|].
  cbn [run dispatch]. by rewrite H.
Qed.

(** C9: the error handler of a client socket only reports: the client set
    and the sockets are as before and no call is made besides the report.
    Of the socket's handlers, the close handler is the one that takes the
    socket out of the client set, after reporting the disconnection; it
    takes out that socket and no other. *)
Theorem socket_error_only_reports clientAddr socket error data st :
  socket_onError clientAddr error st
  = (Normal tt,
     add_trace
       [ConsoleError
          ("TCP client error (" +:+ clientAddr +:+ "): " +:+ message error)] st) /\
  tcpClients (snd (socket_onError clientAddr error st)) = tcpClients st /\
  sockets (snd (socket_onError clientAddr error st)) = sockets st /\
  tcpClients (snd (socket_onData data st)) = tcpClients st /\
  socket_onClose clientAddr socket st
  = (Normal tt,
     set_tcpClients (Set_delete socket (tcpClients st))
       (add_trace [ConsoleLog ("TCP client disconnected: " +:+ clientAddr)] st)) /\
  forall x,
    x ∈ tcpClients (snd (socket_onClose clientAddr socket st))
    <-> x ∈ tcpClients st /\ x ≠ socket.
Proof.
  split_and!; try reflexivity.
  - unfold socket_onData. step_m. by destruct (isOpen st).
  - intros x. simpl. unfold Set_delete. rewrite list_elem_of_filter. tauto.
Qed.

(** *** Swallowed errors and shutdown *)

(** C7: an error thrown by [destroy] is swallowed, in the cleanup of a
    fan-out pass and in the signal handlers alike.  Whatever [destroy]
    throws, the handler does not throw (the pass completes normally, the
    signal handler reaches [process.exit(0)] after closing the server);
    [destroy] is still called on every dead socket, respectively on every
    socket of the client set; and the console shows nothing about it: only
    the write errors of the pass, respectively the shutdown line. *)
Theorem destroy_errors_are_swallowed args data sig st :
  (exists st' tr,
     serial_onData data st = (Normal tt, st') /\
     trace st' = (trace st ++ tr)%list /\
     destroys tr = (destroy_effect st <$> List.filter (dead st) (tcpClients st)) /\
     console tr = flat_map (write_report st) (tcpClients st)) /\
  (exists st' tr,
     dispatch args (Signal sig) st = (Exit 0, st') /\
     trace st' = (trace st ++ tr)%list /\
     destroys tr = (destroy_effect st <$> tcpClients st) /\
     console tr = [ConsoleLog (LF +:+ "Shutting down...")] /\
     ServerClose ∈ tr /\ ProcessExit 0 ∈ tr).
Proof.
  split.
  - destruct (fanout_pass data st) as (st' & Hrun & _ & Htr & _).
    exists st'. eexists. split; [done|]. split; [exact Htr|].
    rewrite destroys_app, console_app, destroys_writes, console_writes,
      destroys_destroys, console_destroys.
    by rewrite app_nil_r.
  - destruct (shutdown_body st) as (st' & Hint & Hterm & _ & Htr).
    exists st', (shutdown_trace st).
    split; [by destruct sig|]. split; [exact Htr|].
    unfold shutdown_trace.
    rewrite !destroys_app, !console_app, destroys_destroys, console_destroys.
    split_and!; try reflexivity.
    + by rewrite app_nil_r.
    + rewrite !elem_of_app. right. right. by left.
    + rewrite !elem_of_app. right. right. right. by left.
Qed.

(** C8: on SIGINT and on SIGTERM the handler reports the shutdown, closes
    the serial port, calls [destroy] on every socket of the client set in
    turn (a throwing call does not stop it), closes the server and exits
    with status 0, all within the handler: no later event is handled. *)
Theorem shutdown_teardown_order args sig evs st :
  exists st',
    dispatch args (Signal sig) st = (Exit 0, st') /\
    run args (Signal sig :: evs) st = (Exited 0, st') /\
    tcpClients st' = tcpClients st /\
    trace st' =
      (trace st
         ++ [ConsoleLog (LF +:+ "Shutting down..."); SerialClose]
         ++ (destroy_effect st <$> tcpClients st)
         ++ [ServerClose; ProcessExit 0])%list.
Proof.
  destruct (shutdown_body st) as (st' & Hint & Hterm & Hcl & Htr).
  exists st'.
  assert (H : dispatch args (Signal sig) st = (Exit 0, st')) by (by destruct sig).
  split; [exact H|]. split; [|split; [exact Hcl|exact Htr]].
  cbn [run]. by rewrite H.
Qed.

(** *** Arguments *)

Lemma indexOf_from_absent l x : forall i, x ∉ l -> indexOf_from l x i = -1.
Proof.
  induction l as [|y l IH]; intros i Hx; simpl; [done|].
  apply not_elem_of_cons in Hx as [Hne Hx].
  destruct (decide (y = x)); [congruence|]. by apply IH.
Qed.

Lemma indexOf_from_first pre x tail : forall i,
  x ∉ pre -> indexOf_from (pre ++ x :: tail) x i = i + Z.of_nat (length pre).
Proof.
  induction pre as [|y pre IH]; intros i Hx; simpl.
  - destruct (decide (x = x)); [lia|congruence].
  - apply not_elem_of_cons in Hx as [Hne Hx].
    destruct (decide (y = x)); [congruence|]. rewrite IH by done. lia.
Qed.

Lemma get_following pre x tail :
  get (pre ++ x :: tail) (0 + Z.of_nat (length pre) + 1)
  = match tail with v :: _ => str v | [] => undefined end.
Proof.
  unfold get. destruct (decide (0 <= 0 + Z.of_nat (length pre) + 1)); [|lia].
  replace (Z.to_nat (0 + Z.of_nat (length pre) + 1)) with (S (length pre)) by lia.
  rewrite lookup_app_r by lia.
  replace (S (length pre) - length pre)%nat with 1%nat by lia.
  by destruct tail.
Qed.

Lemma getArg_absent args flag d : flag ∉ args -> getArg args flag d = d.
Proof.
  intros H. unfold getArg, indexOf. by rewrite indexOf_from_absent.
Qed.

Lemma getArg_first pre flag tail d :
  flag ∉ pre ->
  getArg (pre ++ flag :: tail) flag d
  = match tail with
    | v :: _ => if String.eqb v "" then d else str v
    | [] => d
    end.
Proof.
  intros H. unfold getArg, indexOf. rewrite indexOf_from_first by done.
  rewrite get_following.
  destruct (Z.eqb_spec (0 + Z.of_nat (length pre)) (-1)) as [E|_]; [lia|]. simpl.
  destruct tail as [|v tail]; [done|]. simpl. by destruct (String.eqb v "").
Qed.

(** C10: [getArg] returns the argument that follows the first occurrence
    of the flag when there is one and it is not the empty string, and the
    default value when the flag is absent, is the last argument, or is
    followed by the empty string.  So, without the flags, the serial path
    is /dev/ttyUSB0, the host 0.0.0.0 and the port 5000; the baud rate is
    115200 whatever the arguments. *)
Theorem getArg_following_or_default
    (pre rest args other : list string) (flag v : string) (d : value) :
  flag ∉ pre -> v ≠ "" ->
  "--serial-port" ∉ args -> "--tcp-host" ∉ args -> "--tcp-port" ∉ args ->
  getArg (pre ++ flag :: v :: rest) flag d = str v /\
  getArg (pre ++ flag :: "" :: rest) flag d = d /\
  getArg (pre ++ [flag]) flag d = d /\
  getArg pre flag d = d /\
  serialPort args = str "/dev/ttyUSB0" /\
  tcpHost args = str "0.0.0.0" /\
  tcpPort args = Some 5000 /\
  baudRate (serialPortOptions other) = 115200.
Proof.
  intros Hpre Hv Hs Hh Hp.
  split_and!.
  - rewrite getArg_first by done. by apply String.eqb_neq in Hv as ->.
  - by rewrite getArg_first.
  - by rewrite getArg_first.
  - by apply getArg_absent.
  - by apply getArg_absent.
  - by apply getArg_absent.
  - unfold tcpPort. by rewrite getArg_absent.
  - reflexivity.
Qed.

(** The theorem at sample argument lists. *)
Lemma getArg_following_or_default_witness :
  ("--tcp-port" ∉ ["--tcp-host"; "::1"]) /\
  "6000" ≠ "" /\
  ("--serial-port" ∉ ["-v"]) /\
  ("--tcp-host" ∉ ["-v"]) /\
  ("--tcp-port" ∉ ["-v"]) /\
  getArg (["--tcp-host"; "::1"] ++ "--tcp-port" :: "6000" :: ["x"])
    "--tcp-port" (str "5000") = str "6000" /\
  getArg (["--tcp-host"; "::1"] ++ "--tcp-port" :: "" :: ["x"])
    "--tcp-port" (str "5000") = str "5000" /\
  getArg (["--tcp-host"; "::1"] ++ ["--tcp-port"]) "--tcp-port" (str "5000")
  = str "5000" /\
  getArg ["--tcp-host"; "::1"] "--tcp-port" (str "5000") = str "5000" /\
  serialPort ["-v"] = str "/dev/ttyUSB0" /\
  tcpHost ["-v"] = str "0.0.0.0" /\
  tcpPort ["-v"] = Some 5000 /\
  baudRate (serialPortOptions ["--baud"; "9600"]) = 115200.
Proof.
  split; [by_decide|]. split; [by_decide|]. split; [by_decide|].
  split; [by_decide|]. split; [by_decide|].
  apply (getArg_following_or_default ["--tcp-host"; "::1"] ["x"] ["-v"]
           ["--baud"; "9600"] "--tcp-port" "6000" (str "5000")); by_decide.
Defined.

(** ** The event loop as a whole *)

(** *** The handlers as state transformers *)

Lemma serial_onData_eq data st :
  serial_onData data st = (Normal tt, fanout_state data st).
Proof.
  unfold fanout_state, serial_onData, tcpClients_size, gets.
  unfold mbind at 1, M_bind at 1.
  destruct (tcpClients st) as [|c cs] eqn:Hcs.
  - simpl. unfold steps. simpl. by rewrite add_trace_nil.
  - change (0 <? Z.of_nat (length (c :: cs))) with true. cbv iota.
    unfold mbind at 1, M_bind at 1. rewrite Hcs.
    unfold mbind at 1, M_bind at 1.
    change (for_of_acc (c :: cs) _ [] st)
      with (for_of_acc (c :: cs) (write_body data) [] st).
    rewrite write_loop, app_nil_l.
    by rewrite (for_of_steps _ cleanup_state cleanup_step).
Qed.

Section StepFrame.

Variable step : sock -> State -> State.

Hypothesis step_listeners : forall s st, listeners (step s st) = listeners st.
Hypothesis step_isOpen : forall s st, isOpen (step s st) = isOpen st.

Lemma steps_listeners l : forall st, listeners (steps step l st) = listeners st.
Proof.
  unfold steps. induction l as [|s l IH]; intros st; simpl; [done|].
  by rewrite IH, step_listeners.
Qed.

Lemma steps_isOpen l : forall st, isOpen (steps step l st) = isOpen st.
Proof.
  unfold steps. induction l as [|s l IH]; intros st; simpl; [done|].
  by rewrite IH, step_isOpen.
Qed.

End StepFrame.

Lemma destroy_state_listeners s st : listeners (destroy_state s st) = listeners st.
Proof. unfold destroy_state. by destruct (destroy_throws (sockets st s)). Qed.

Lemma destroy_state_isOpen s st : isOpen (destroy_state s st) = isOpen st.
Proof. unfold destroy_state. by destruct (destroy_throws (sockets st s)). Qed.

Lemma cleanup_state_listeners s st : listeners (cleanup_state s st) = listeners st.
Proof. unfold cleanup_state. by rewrite destroy_state_listeners. Qed.

Lemma cleanup_state_isOpen s st : isOpen (cleanup_state s st) = isOpen st.
Proof. unfold cleanup_state. by rewrite destroy_state_isOpen. Qed.

Lemma fanout_state_tcpClients data st :
  tcpClients (fanout_state data st)
  = List.filter (fun s => negb (dead st s)) (tcpClients st).
Proof.
  unfold fanout_state, steps. rewrite cleanup_tcpClients.
  apply filter_not_in_selected.
Qed.

Lemma fanout_state_trace data st :
  trace (fanout_state data st)
  = (trace st ++ flat_map (write_effects data st) (tcpClients st)
       ++ (destroy_effect st <$> List.filter (dead st) (tcpClients st)))%list.
Proof.
  unfold fanout_state.
  rewrite (steps_trace _ cleanup_state_trace cleanup_state_oracle).
  simpl trace. by rewrite <- app_assoc.
Qed.

Lemma fanout_state_listeners data st :
  listeners (fanout_state data st) = listeners st.
Proof.
  unfold fanout_state. by rewrite (steps_listeners _ cleanup_state_listeners).
Qed.

Lemma fanout_state_isOpen data st : isOpen (fanout_state data st) = isOpen st.
Proof.
  unfold fanout_state. by rewrite (steps_isOpen _ cleanup_state_isOpen).
Qed.

Lemma fanout_state_sockets data st x :
  dead st x = false -> sockets (fanout_state data st) x = sockets st x.
Proof.
  intros Hx. unfold fanout_state.
  rewrite (steps_frame _ cleanup_state_frame); [done|].
  rewrite elem_of_filter_bool. intros [_ ?]. congruence.
Qed.

Lemma elem_of_fanout_state data st x :
  x ∈ tcpClients (fanout_state data st) <-> x ∈ tcpClients st /\ dead st x = false.
Proof.
  rewrite fanout_state_tcpClients, elem_of_filter_bool.
  destruct (dead st x); simpl; intuition discriminate.
Qed.

Lemma NoDup_filter_bool (p : sock -> bool) (l : list sock) :
  NoDup l -> NoDup (List.filter p l).
Proof.
  induction l as [|x l IH]; intros Hl; simpl; [done|].
  apply NoDup_cons in Hl as [Hx Hl]. destruct (p x); [|by apply IH].
  apply NoDup_cons. split; [|by apply IH].
  rewrite elem_of_filter_bool. tauto.
Qed.

Lemma onSIGINT_eq st : onSIGINT st = (Exit 0, shutdown_state st).
Proof.
  unfold onSIGINT, shutdown_state. step_m.
  by rewrite (for_of_steps _ destroy_state guarded_destroy_step).
Qed.

Lemma onSIGTERM_eq st : onSIGTERM st = (Exit 0, shutdown_state st).
Proof.
  unfold onSIGTERM, shutdown_state. step_m.
  by rewrite (for_of_steps _ destroy_state guarded_destroy_step).
Qed.

Lemma shutdown_state_tcpClients st :
  tcpClients (shutdown_state st) = tcpClients st.
Proof. unfold shutdown_state, steps. simpl. by rewrite shutdown_tcpClients. Qed.

Lemma shutdown_state_listeners st :
  listeners (shutdown_state st) = listeners st.
Proof.
  unfold shutdown_state. simpl.
  by rewrite (steps_listeners _ destroy_state_listeners).
Qed.

Lemma shutdown_state_trace st :
  trace (shutdown_state st) = (trace st ++ shutdown_trace st)%list.
Proof.
  unfold shutdown_state. simpl trace.
  rewrite (steps_trace _ destroy_state_trace destroy_state_oracle).
  unfold shutdown_trace. simpl. by rewrite <- !app_assoc.
Qed.

(** *** What an event may cause *)

Lemma write_effects_allowed data st l :
  (forall s, s ∈ l -> s ∈ tcpClients st) ->
  Forall (allowed (SerialData data) st) (flat_map (write_effects data st) l).
Proof.
  intros Hl. apply Forall_forall. intros e He.
  apply list_elem_of_In, in_flat_map in He as (s & Hs & He).
  apply list_elem_of_In in Hs. apply list_elem_of_In in He.
  unfold write_effects in He.
  destruct (destroyed (sockets st s)) eqn:Hd; [by apply elem_of_nil in He|].
  destruct (write_throws (sockets st s)) as [err|] eqn:Hw.
  - apply elem_of_cons in He as [->|He]; [simpl; auto|].
    by apply list_elem_of_singleton in He as ->.
  - apply list_elem_of_singleton in He as ->. simpl. auto.
Qed.

Lemma destroy_effects_allowed ev st l :
  (forall s, s ∈ l -> s ∈ tcpClients st /\
     ((exists d, ev = SerialData d /\ dead st s = true) \/ exists sig, ev = Signal sig)) ->
  Forall (allowed ev st) (destroy_effect st <$> l).
Proof.
  intros Hl. apply Forall_fmap, Forall_forall. intros s Hs.
  destruct (Hl s Hs) as [Hin Hwhy]. unfold compose, destroy_effect.
  destruct (destroy_throws (sockets st s)) eqn:E; simpl; auto.
Qed.

Ltac solve_allowed :=
  repeat (apply Forall_cons; split; [simpl; eauto 8|]); by apply Forall_nil.

Section EventLoop.

Variable args : list string.

(** Every call an event causes is one the event allows. *)
Lemma dispatch_effects ev st :
  exists tr,
    trace (snd (dispatch args ev st)) = (trace st ++ tr)%list /\
    Forall (allowed ev st) tr.
Proof.
  destruct ev as [data|error| |[error|]|socket|socket data|socket error|socket
                 |error|address port|[|]|socks open]; cbn [dispatch].
  - rewrite serial_onData_eq. cbn [snd]. rewrite fanout_state_trace.
    eexists. split; [reflexivity|]. apply Forall_app. split.
    + by apply write_effects_allowed.
    + apply destroy_effects_allowed. intros s Hs.
      apply elem_of_filter_bool in Hs as [? ?]. split; [done|]. left. eauto.
  - eexists. split; [reflexivity|]. solve_allowed.
  - eexists. split; [reflexivity|]. solve_allowed.
  - exists [ConsoleError ("Failed to open serial port: " +:+ message error);
            ProcessExit 1].
    split; [unfold serial_openCallback; step_m; simpl; by rewrite <- app_assoc|].
    solve_allowed.
  - eexists. split; [reflexivity|]. solve_allowed.
  - exists [ConsoleLog ("TCP client connected: " +:+
              render_string (remoteAddress (sockets st socket)) +:+ ":" +:+
              render_number (remotePort (sockets st socket)))].
    split; [reflexivity|]. solve_allowed.
  - unfold with_listener, socket_onData. step_m.
    destruct (listeners st socket) as [addr|] eqn:Hl.
    + destruct (isOpen st) eqn:Ho; eexists; (split; [reflexivity|]);
        [|solve_allowed].
      apply Forall_cons. split; [|by apply Forall_nil].
      simpl. exists socket. rewrite Hl. eauto.
    + exists []. split; [by rewrite app_nil_r|by apply Forall_nil].
  - unfold with_listener, socket_onError. step_m.
    destruct (listeners st socket) as [addr|].
    + eexists. split; [reflexivity|]. solve_allowed.
    + exists []. split; [by rewrite app_nil_r|by apply Forall_nil].
  - unfold with_listener, socket_onClose. step_m.
    destruct (listeners st socket) as [addr|].
    + eexists. split; [reflexivity|]. solve_allowed.
    + exists []. split; [by rewrite app_nil_r|by apply Forall_nil].
  - eexists. split; [reflexivity|]. solve_allowed.
  - exists [ConsoleLog ("TCP server started on " +:+ address +:+ ":" +:+ pretty port);
            ConsoleLog ("Connect to this bridge using: meshcli -t " +:+ address +:+
                        " -p " +:+ pretty port +:+ " <command>")].
    split; [unfold server_listenCallback; step_m; simpl; by rewrite <- app_assoc|].
    solve_allowed.
  - rewrite onSIGINT_eq. cbn [snd]. rewrite shutdown_state_trace.
    eexists. split; [reflexivity|]. unfold shutdown_trace.
    repeat (apply Forall_cons; split; [simpl; eauto|]).
    apply Forall_app. split.
    + apply destroy_effects_allowed. eauto.
    + solve_allowed.
  - rewrite onSIGTERM_eq. cbn [snd]. rewrite shutdown_state_trace.
    eexists. split; [reflexivity|]. unfold shutdown_trace.
    repeat (apply Forall_cons; split; [simpl; eauto|]).
    apply Forall_app. split.
    + apply destroy_effects_allowed. eauto.
    + solve_allowed.
  - exists []. split; [simpl; by rewrite app_nil_r|by apply Forall_nil].
Qed.

Lemma elem_of_Set_add x s l : x ∈ Set_add s l <-> x ∈ l \/ x = s.
Proof.
  unfold Set_add. destruct (decide (s ∈ l)) as [Hs|Hs].
  - split; [by left|]. by intros [?| ->].
  - rewrite elem_of_app, list_elem_of_singleton. tauto.
Qed.

Lemma NoDup_Set_add s l : NoDup l -> NoDup (Set_add s l).
Proof.
  intros Hl. unfold Set_add. destruct (decide (s ∈ l)) as [Hs|Hs]; [done|].
  apply NoDup_app. split; [done|]. split; [|apply NoDup_singleton].
  intros x Hx ->%list_elem_of_singleton. done.
Qed.

Lemma elem_of_Set_delete x s l : x ∈ Set_delete s l <-> x ∈ l /\ x ≠ s.
Proof. unfold Set_delete. rewrite list_elem_of_filter. tauto. Qed.

(** Only a connection brings a socket into the client set. *)
Lemma dispatch_clients ev st x :
  x ∈ tcpClients (snd (dispatch args ev st)) ->
  x ∈ tcpClients st \/ ev = Connection x.
Proof.
  destruct ev as [data|error| |[error|]|socket|socket data|socket error|socket
                 |error|address port|[|]|socks open]; cbn [dispatch];
    try (intros H; by left).
  - rewrite serial_onData_eq. cbn [snd]. rewrite elem_of_fanout_state. tauto.
  - simpl. rewrite elem_of_Set_add. intros [?| ->]; auto.
  - unfold with_listener, socket_onData. step_m.
    destruct (listeners st socket); [|by left].
    destruct (isOpen st); by left.
  - unfold with_listener, socket_onError. step_m.
    destruct (listeners st socket); by left.
  - unfold with_listener, socket_onClose. step_m.
    destruct (listeners st socket); [|by left].
    simpl. rewrite elem_of_Set_delete. tauto.
  - rewrite onSIGINT_eq. cbn [snd]. rewrite shutdown_state_tcpClients. by left.
  - rewrite onSIGTERM_eq. cbn [snd]. rewrite shutdown_state_tcpClients. by left.
Qed.

(** No event but a connection changes the handlers of a socket. *)
Lemma dispatch_listeners ev st x :
  listeners (snd (dispatch args ev st)) x = listeners st x \/ ev = Connection x.
Proof.
  destruct ev as [data|error| |[error|]|socket|socket data|socket error|socket
                 |error|address port|[|]|socks open]; cbn [dispatch];
    try (by left).
  - rewrite serial_onData_eq. cbn [snd]. rewrite fanout_state_listeners. by left.
  - simpl. destruct (decide (socket = x)) as [->|Hne]; [by right|].
    left. by rewrite fn_lookup_insert_ne.
  - unfold with_listener, socket_onData. step_m.
    destruct (listeners st socket); [|by left].
    destruct (isOpen st); by left.
  - unfold with_listener, socket_onError. step_m.
    destruct (listeners st socket); by left.
  - unfold with_listener, socket_onClose. step_m.
    destruct (listeners st socket); by left.
  - rewrite onSIGINT_eq. cbn [snd]. rewrite shutdown_state_listeners. by left.
  - rewrite onSIGTERM_eq. cbn [snd]. rewrite shutdown_state_listeners. by left.
Qed.

Lemma dispatch_NoDup ev st :
  NoDup (tcpClients st) -> NoDup (tcpClients (snd (dispatch args ev st))).
Proof.
  intros Hnd.
  destruct ev as [data|error| |[error|]|socket|socket data|socket error|socket
                 |error|address port|[|]|socks open]; cbn [dispatch];
    try done.
  - rewrite serial_onData_eq. cbn [snd]. rewrite fanout_state_tcpClients.
    by apply NoDup_filter_bool.
  - simpl. by apply NoDup_Set_add.
  - unfold with_listener, socket_onData. step_m.
    destruct (listeners st socket); [|done]. by destruct (isOpen st).
  - unfold with_listener, socket_onError. step_m.
    by destruct (listeners st socket).
  - unfold with_listener, socket_onClose. step_m.
    destruct (listeners st socket); [|done]. simpl. by apply NoDup_filter.
  - rewrite onSIGINT_eq. cbn [snd]. by rewrite shutdown_state_tcpClients.
  - rewrite onSIGTERM_eq. cbn [snd]. by rewrite shutdown_state_tcpClients.
Qed.

Lemma dispatch_inv ev st :
  bridge_inv st -> bridge_inv (snd (dispatch args ev st)).
Proof.
  intros [Hnd Hreg]. split; [by apply dispatch_NoDup|].
  intros x Hx.
  assert (Hconn : is_Some (listeners (snd (dispatch args (Connection x) st)) x)).
  { simpl. rewrite fn_lookup_insert. eauto. }
  destruct (dispatch_clients ev st x Hx) as [Hin| ->]; [|done].
  destruct (dispatch_listeners ev st x) as [->| ->]; [by apply Hreg|done].
Qed.


(** *** Runs of events *)

Lemma event_trace_eq ev st tr :
  trace (snd (dispatch args ev st)) = (trace st ++ tr)%list ->
  event_trace args ev st = tr.
Proof. intros H. unfold event_trace. by rewrite H, drop_app_length. Qed.

Lemma event_trace_allowed ev st : Forall (allowed ev st) (event_trace args ev st).
Proof.
  destruct (dispatch_effects ev st) as (tr & Htr & Hall).
  by rewrite (event_trace_eq _ _ _ Htr).
Qed.

Lemma trace_event_trace ev st :
  trace (snd (dispatch args ev st)) = (trace st ++ event_trace args ev st)%list.
Proof.
  destruct (dispatch_effects ev st) as (tr & Htr & _).
  by rewrite (event_trace_eq _ _ _ Htr).
Qed.

Lemma run_nil st : run args [] st = (Running, st).
Proof. done. Qed.

Lemma run_extends evs : forall st,
  exists tr, trace (snd (run args evs st)) = (trace st ++ tr)%list.
Proof.
  induction evs as [|ev evs IH]; intros st.
  - exists []. simpl. by rewrite app_nil_r.
  - cbn [run]. pose proof (trace_event_trace ev st) as Ht.
    destruct (dispatch args ev st) as [[[]|e|c] st'] eqn:E; cbn [snd] in *;
      [|eauto|eauto].
    destruct (IH st') as (tr & Htr). rewrite Htr, Ht.
    eexists. by rewrite <- app_assoc.
Qed.

(** The trace of a run: that of its first event, then that of the rest,
    which is not run when the first event ends the process. *)
Lemma run_trace_cons ev evs st :
  run_trace args (ev :: evs) st
  = (event_trace args ev st ++
     match fst (dispatch args ev st) with
     | Normal _ => run_trace args evs (snd (dispatch args ev st))
     | _ => []
     end)%list.
Proof.
  unfold run_trace. cbn [run].
  pose proof (trace_event_trace ev st) as Ht.
  destruct (dispatch args ev st) as [[[]|e|c] st'] eqn:E; cbn [fst snd] in *.
  - destruct (run_extends evs st') as (tr & Htr).
    rewrite Htr, drop_app_length, Ht, <- app_assoc. by rewrite drop_app_length.
  - by rewrite Ht, drop_app_length, app_nil_r.
  - by rewrite Ht, drop_app_length, app_nil_r.
Qed.

Lemma trace_run_trace evs : forall st,
  trace (snd (run args evs st)) = (trace st ++ run_trace args evs st)%list.
Proof.
  induction evs as [|ev evs IH]; intros st.
  - unfold run_trace. simpl. by rewrite drop_all, app_nil_r.
  - rewrite run_trace_cons. cbn [run].
    pose proof (trace_event_trace ev st) as Ht.
    destruct (dispatch args ev st) as [[[]|e|c] st'] eqn:E; cbn [fst snd] in *.
    + by rewrite IH, Ht, <- app_assoc.
    + by rewrite app_nil_r.
    + by rewrite app_nil_r.
Qed.

(** An invariant of the events of a run holds of the state it ends in,
    and what the events allow under it holds of every call of the run. *)
Lemma run_invariant (I : State -> Prop) (E : event -> Prop) (Q : effect -> Prop) :
  (forall ev st, E ev -> I st -> I (snd (dispatch args ev st))) ->
  (forall ev st e, E ev -> I st -> allowed ev st e -> Q e) ->
  forall evs st, Forall E evs -> I st ->
    I (snd (run args evs st)) /\ Forall Q (run_trace args evs st).
Proof.
  intros Hstep Hcall evs. induction evs as [|ev evs IH]; intros st Hevs Hst.
  - split; [done|]. unfold run_trace. simpl. rewrite drop_all. by apply Forall_nil.
  - apply Forall_cons in Hevs as [Hev Hevs].
    assert (Hfirst : Forall Q (event_trace args ev st)).
    { eapply Forall_impl; [apply event_trace_allowed|]. intros e. by apply Hcall. }
    rewrite run_trace_cons. cbn [run].
    pose proof (Hstep ev st Hev Hst) as Hst'.
    destruct (dispatch args ev st) as [[[]|e|c] st'] eqn:Heq; cbn [fst snd] in *.
    + destruct (IH st' Hevs Hst') as [? ?]. split; [done|].
      apply Forall_app. by split.
    + split; [done|]. by rewrite app_nil_r.
    + split; [done|]. by rewrite app_nil_r.
Qed.

End EventLoop.

(** *** Properties of the event loop *)

Lemma filter_none {A} (p : A -> bool) (l : list A) :
  Forall (fun x => p x = false) l -> List.filter p l = [].
Proof.
  induction 1 as [|x l Hx _ IH]; [done|]. simpl. by rewrite Hx.
Qed.

Lemma allowed_off_socket ev st s e :
  s ∉ tcpClients st -> allowed ev st e -> off_socket s e.
Proof.
  intros Hs. destruct e; simpl; try done;
    intros (? & ? & ?); try (intros ->; tauto); intros ->; tauto.
Qed.

Lemma untouched_run args s evs st :
  s ∉ tcpClients st -> Forall (fun ev => ev ≠ Connection s) evs ->
  (s ∉ tcpClients (snd (run args evs st))) /\
  Forall (off_socket s) (run_trace args evs st).
Proof.
  intros Hs Hevs.
  apply (run_invariant args (fun st => s ∉ tcpClients st)
           (fun ev => ev ≠ Connection s) (off_socket s)); try done.
  - intros ev st' Hev Hst' Hin.
    by destruct (dispatch_clients args ev st' s Hin).
  - intros ev st' e _ Hst'. by apply allowed_off_socket.
Qed.

(** The state the top level leaves, whether [listen] throws or not. *)
Lemma boot_eq args socks :
  boot args socks
  = {| tcpClients := [];
       sockets := socks;
       listeners := fun _ => None;
       isOpen := false;
       trace :=
         [ConsoleLog "Starting Serial to TCP Bridge";
          ConsoleLog ("Serial: " +:+ to_string (serialPort args));
          ConsoleLog ("TCP: " +:+ to_string (tcpHost args) +:+ ":" +:+
                      number_to_string (tcpPort args));
          SerialOpen (serialPortOptions args);
          ServerListen (tcpPort args) (tcpHost args)] |}.
Proof.
  unfold boot, main, server_listen. step_m.
  by destruct (valid_port (tcpPort args)).
Qed.

(** X1: in every state the process reaches from its start, each socket is
    in the client set at most once and every socket of the set has its
    handlers registered, so its close handler will take it out. *)
Theorem reachable_clients_registered args socks evs :
  bridge_inv (snd (run args evs (boot args socks))).
Proof.
  apply (run_invariant args bridge_inv (fun _ => True) (fun _ => True)).
  - intros ev st _. apply dispatch_inv.
  - done.
  - by apply Forall_forall.
  - rewrite boot_eq. split; [apply NoDup_nil_2|].
    intros x Hx. by apply elem_of_nil in Hx.
Qed.

(** X2: a socket is in the client set after a run of events only if it
    was there before or the run has a connection event for it. *)
Theorem clients_come_from_connections args evs st x :
  x ∈ tcpClients (snd (run args evs st)) ->
  x ∈ tcpClients st \/ Connection x ∈ evs.
Proof.
  revert st. induction evs as [|ev evs IH]; intros st Hx; [by left|].
  cbn [run] in Hx. pose proof (dispatch_clients args ev st x) as Hd.
  destruct (dispatch args ev st) as [[[]|e|c] st'] eqn:E; cbn [snd] in *.
  - destruct (IH st' Hx) as [Hin|Hin]; [|right; by right].
    destruct (Hd Hin) as [?| ->]; [by left|right; by left].
  - destruct (Hd Hx) as [?| ->]; [by left|right; by left].
  - destruct (Hd Hx) as [?| ->]; [by left|right; by left].
Qed.

(** The theorem for a connection at the idle state. *)
Lemma clients_come_from_connections_witness :
  7%positive ∈ tcpClients (snd (run [] [Connection 7%positive] idle_state)) /\
  (7%positive ∈ tcpClients idle_state \/
   Connection 7%positive ∈ [Connection 7%positive]).
Proof.
  assert (H : 7%positive
              ∈ tcpClients (snd (run [] [Connection 7%positive] idle_state)))
    by by_decide.
  split; [exact H|].
  exact (clients_come_from_connections [] [Connection 7%positive] idle_state
           7%positive H).
Defined.


(** X4: whatever the event, [write] is called on a socket only by the
    fan-out of a serial chunk, with that very chunk, on a socket that is
    in the client set and not destroyed. *)
Theorem socket_written_only_by_fanout args ev st s d :
  written s d (event_trace args ev st) ->
  ev = SerialData d /\ s ∈ tcpClients st /\ destroyed (sockets st s) = false.
Proof.
  pose proof (event_trace_allowed args ev st) as Hall.
  rewrite Forall_forall in Hall.
  intros [H|[e H]]; apply Hall in H; simpl in H; tauto.
Qed.

(** The theorem for the healthy socket of the sample state. *)
Lemma socket_written_only_by_fanout_witness :
  written 3%positive sample_data
    (event_trace [] (SerialData sample_data) sample_state) /\
  SerialData sample_data = SerialData sample_data /\
  3%positive ∈ tcpClients sample_state /\
  destroyed (sockets sample_state 3%positive) = false.
Proof.
  assert (H : written 3%positive sample_data
                (event_trace [] (SerialData sample_data) sample_state))
    by (left; by_elem).
  split; [exact H|].
  exact (socket_written_only_by_fanout [] (SerialData sample_data) sample_state
           3%positive sample_data H).
Defined.

(** X5: whatever the event, [destroy] is called on a socket only if the
    socket is in the client set, and either the event is a serial chunk
    whose write to that socket throws, or the event is a signal. *)
Theorem socket_destroyed_only_dead_or_shutdown args ev st s :
  destroy_attempted s (event_trace args ev st) ->
  s ∈ tcpClients st /\
  ((exists d, ev = SerialData d /\ dead st s = true) \/ exists sig, ev = Signal sig).
Proof.
  pose proof (event_trace_allowed args ev st) as Hall.
  rewrite Forall_forall in Hall.
  intros [H|[e H]]; apply Hall in H; simpl in H; tauto.
Qed.

(** The theorem for the failing socket of the sample state. *)
Lemma socket_destroyed_only_dead_or_shutdown_witness :
  destroy_attempted 1%positive
    (event_trace [] (SerialData sample_data) sample_state) /\
  1%positive ∈ tcpClients sample_state /\
  ((exists d, SerialData sample_data = SerialData d /\
              dead sample_state 1%positive = true) \/
   exists sig, SerialData sample_data = Signal sig).
Proof.
  assert (H : destroy_attempted 1%positive
                (event_trace [] (SerialData sample_data) sample_state))
    by (right; exists sample_error; by_elem).
  split; [exact H|].
  exact (socket_destroyed_only_dead_or_shutdown [] (SerialData sample_data)
           sample_state 1%positive H).
Defined.

(** X6: whatever the event, a chunk is written to the serial port only
    when the event is data from a client socket whose handlers are
    registered, the chunk is that data, and the port is open. *)
Theorem serial_written_only_client_data args ev st d :
  SerialWrite d ∈ event_trace args ev st ->
  exists s, ev = SocketData s d /\ is_Some (listeners st s) /\ isOpen st = true.
Proof.
  pose proof (event_trace_allowed args ev st) as Hall.
  rewrite Forall_forall in Hall. intros H. by apply Hall in H.
Qed.

(** The theorem for data from the connected client. *)
Lemma serial_written_only_client_data_witness :
  SerialWrite sample_data
    ∈ event_trace [] (SocketData 7%positive sample_data) connected_state /\
  exists s,
    SocketData 7%positive sample_data = SocketData s sample_data /\
    is_Some (listeners connected_state s) /\ isOpen connected_state = true.
Proof.
  assert (H : SerialWrite sample_data
      ∈ event_trace [] (SocketData 7%positive sample_data) connected_state)
    by by_elem.
  split; [exact H|].
  exact (serial_written_only_client_data [] (SocketData 7%positive sample_data)
           connected_state sample_data H).
Defined.

(** X7: a socket that is not in the client set is left alone: through any
    run of events without a connection of that socket, it stays out of
    the set and neither [write] nor [destroy] is called on it. *)
Theorem unconnected_socket_untouched args s evs st :
  s ∉ tcpClients st -> Connection s ∉ evs ->
  (s ∉ tcpClients (snd (run args evs st))) /\
  ~ write_attempted s (run_trace args evs st) /\
  ~ destroy_attempted s (run_trace args evs st).
Proof.
  intros Hs Hevs.
  destruct (untouched_run args s evs st Hs) as [Hout Hoff].
  { apply Forall_forall. intros ev Hev ->. done. }
  rewrite Forall_forall in Hoff. split; [done|]. split.
  - intros [d [H|[e H]]]; by apply Hoff in H.
  - intros [H|[e H]]; by apply Hoff in H.
Qed.

(** The theorem for a socket that never connected, at the sample state. *)
Lemma unconnected_socket_untouched_witness :
  (9%positive ∉ tcpClients sample_state) /\
  (Connection 9%positive ∉ [SerialData sample_data; SocketClosed 3%positive]) /\
  (9%positive ∉ tcpClients
     (snd (run [] [SerialData sample_data; SocketClosed 3%positive] sample_state))) /\
  ~ write_attempted 9%positive
      (run_trace [] [SerialData sample_data; SocketClosed 3%positive] sample_state) /\
  ~ destroy_attempted 9%positive
      (run_trace [] [SerialData sample_data; SocketClosed 3%positive] sample_state).
Proof.
  assert (H1 : 9%positive ∉ tcpClients sample_state) by by_decide.
  assert (H2 : Connection 9%positive
                 ∉ [SerialData sample_data; SocketClosed 3%positive]).
  { intros H. apply list_elem_of_In in H. simpl in H. intuition discriminate. }
  split; [exact H1|]. split; [exact H2|].
  exact (unconnected_socket_untouched [] 9%positive
           [SerialData sample_data; SocketClosed 3%positive] sample_state H1 H2).
Defined.

(** X8: the serial port is opened and the server made to listen once, by
    the top level of the script, with the configured path, baud rate
    115200, port and host; no event handler ever opens or listens again,
    whatever events follow (serial close and listener errors included). *)
Theorem opened_and_listening_once args socks evs :
  List.filter is_startup_call (trace (snd (run args evs (boot args socks))))
  = [SerialOpen (serialPortOptions args);
     ServerListen (tcpPort args) (tcpHost args)].
Proof.
  rewrite trace_run_trace, List.filter_app.
  rewrite (filter_none is_startup_call (run_trace _ _ _)).
  - rewrite boot_eq. by rewrite app_nil_r.
  - apply (run_invariant args (fun _ => True) (fun _ => True)); try done.
    + intros ev st e _ _. by destruct e.
    + by apply Forall_forall.
Qed.

(** *** Fan-out over several chunks *)

Lemma writes_to_app c t1 t2 :
  writes_to c (t1 ++ t2) = (writes_to c t1 ++ writes_to c t2)%list.
Proof. apply List.filter_app. Qed.

Lemma writes_to_destroys c st l : writes_to c (destroy_effect st <$> l) = [].
Proof.
  apply filter_none, Forall_fmap, Forall_forall. intros s _.
  unfold compose, destroy_effect. by destruct (destroy_throws (sockets st s)).
Qed.

Lemma writes_to_other c data st s :
  s ≠ c -> writes_to c (write_effects data st s) = [].
Proof.
  intros Hne. unfold write_effects.
  destruct (destroyed (sockets st s)); [done|].
  destruct (write_throws (sockets st s)); unfold writes_to; simpl;
    by rewrite bool_decide_eq_false_2.
Qed.

Lemma writes_to_absent c data st l :
  c ∉ l -> writes_to c (flat_map (write_effects data st) l) = [].
Proof.
  induction l as [|s l IH]; intros Hc; [done|].
  apply not_elem_of_cons in Hc as [Hne Hc]. simpl.
  by rewrite writes_to_app, writes_to_other, IH.
Qed.

Lemma writes_to_present c data st l :
  NoDup l -> c ∈ l ->
  writes_to c (flat_map (write_effects data st) l)
  = writes_to c (write_effects data st c).
Proof.
  induction l as [|s l IH]; intros Hnd Hc; [by apply elem_of_nil in Hc|].
  apply NoDup_cons in Hnd as [Hs Hnd]. simpl. rewrite writes_to_app.
  destruct (decide (s = c)) as [->|Hne].
  - by rewrite writes_to_absent, app_nil_r.
  - apply elem_of_cons in Hc as [->|Hc]; [done|].
    by rewrite writes_to_other, IH.
Qed.

Lemma event_trace_fanout args data st :
  event_trace args (SerialData data) st
  = (flat_map (write_effects data st) (tcpClients st)
       ++ (destroy_effect st <$> List.filter (dead st) (tcpClients st)))%list.
Proof.
  apply event_trace_eq. cbn [dispatch]. rewrite serial_onData_eq. cbn [snd].
  apply fanout_state_trace.
Qed.

(** The writes of one pass to a socket of the set. *)
Lemma writes_to_pass args c data st :
  NoDup (tcpClients st) -> c ∈ tcpClients st ->
  writes_to c (event_trace args (SerialData data) st)
  = writes_to c (write_effects data st c).
Proof.
  intros Hnd Hc.
  by rewrite event_trace_fanout, writes_to_app, writes_to_destroys, app_nil_r,
    writes_to_present.
Qed.

Lemma run_trace_fanout_cons args data ds st :
  run_trace args (SerialData <$> data :: ds) st
  = (event_trace args (SerialData data) st
       ++ run_trace args (SerialData <$> ds) (fanout_state data st))%list.
Proof.
  change (SerialData <$> data :: ds) with (SerialData data :: (SerialData <$> ds)).
  rewrite run_trace_cons. cbn [dispatch]. by rewrite serial_onData_eq.
Qed.

Lemma run_fanout_cons args data ds st :
  run args (SerialData <$> data :: ds) st
  = run args (SerialData <$> ds) (fanout_state data st).
Proof.
  change (SerialData <$> data :: ds) with (SerialData data :: (SerialData <$> ds)).
  cbn [run dispatch]. by rewrite serial_onData_eq.
Qed.

(** X9: while a healthy client stays in the client set, the chunks the
    serial port delivers are written to it one each, whole and in the
    order of arrival, whatever becomes of the other clients; the client
    is still in the set afterwards and the process still running. *)
Theorem fanout_keeps_chunk_order args c ds st :
  NoDup (tcpClients st) -> c ∈ tcpClients st ->
  destroyed (sockets st c) = false -> write_throws (sockets st c) = None ->
  writes_to c (run_trace args (SerialData <$> ds) st) = (SocketWrite c <$> ds) /\
  c ∈ tcpClients (snd (run args (SerialData <$> ds) st)) /\
  fst (run args (SerialData <$> ds) st) = Running.
Proof.
  revert st. induction ds as [|d ds IH]; intros st Hnd Hc Hd Hw.
  - unfold run_trace. simpl. by rewrite drop_all.
  - assert (Hdead : dead st c = false) by (unfold dead; by rewrite Hd, Hw).
    rewrite run_trace_fanout_cons, run_fanout_cons, writes_to_app,
      writes_to_pass by done.
    destruct (IH (fanout_state d st)) as (IH1 & IH2 & IH3).
    + rewrite fanout_state_tcpClients. by apply NoDup_filter_bool.
    + by apply elem_of_fanout_state.
    + by rewrite fanout_state_sockets.
    + by rewrite fanout_state_sockets.
    + rewrite IH1. split; [|done].
      unfold write_effects. rewrite Hd, Hw. unfold writes_to. simpl.
      by rewrite bool_decide_eq_true_2.
Qed.

(** The theorem for the healthy socket of the sample state and two chunks. *)
Lemma fanout_keeps_chunk_order_witness :
  NoDup (tcpClients sample_state) /\
  3%positive ∈ tcpClients sample_state /\
  destroyed (sockets sample_state 3%positive) = false /\
  write_throws (sockets sample_state 3%positive) = None /\
  writes_to 3%positive
    (run_trace [] (SerialData <$> [sample_data; [Byte.xff]]) sample_state)
  = (SocketWrite 3%positive <$> [sample_data; [Byte.xff]]) /\
  3%positive
    ∈ tcpClients
        (snd (run [] (SerialData <$> [sample_data; [Byte.xff]]) sample_state)) /\
  fst (run [] (SerialData <$> [sample_data; [Byte.xff]]) sample_state) = Running.
Proof.
  assert (H1 : NoDup (tcpClients sample_state)) by by_decide.
  assert (H2 : 3%positive ∈ tcpClients sample_state) by by_decide.
  split; [exact H1|]. split; [exact H2|]. split; [reflexivity|].
  split; [reflexivity|].
  exact (fanout_keeps_chunk_order [] 3%positive [sample_data; [Byte.xff]]
           sample_state H1 H2 eq_refl eq_refl).
Defined.

(** X10: a client whose write throws is not tried again: over a sequence
    of serial chunks, [write] is called on it once, for the first chunk,
    and never for the later ones. *)
Theorem failed_client_not_retried args A e d ds st :
  NoDup (tcpClients st) -> A ∈ tcpClients st ->
  destroyed (sockets st A) = false -> write_throws (sockets st A) = Some e ->
  writes_to A (run_trace args (SerialData <$> d :: ds) st)
  = [SocketWriteThrew A d e].
Proof.
  intros Hnd HA Hd Hw.
  assert (Hdead : dead st A = true) by (unfold dead; by rewrite Hd, Hw).
  assert (Hrest : writes_to A
            (run_trace args (SerialData <$> ds) (fanout_state d st)) = []).
  { unfold writes_to. apply filter_none.
    destruct (untouched_run args A (SerialData <$> ds) (fanout_state d st))
      as [_ Hoff].
    - rewrite elem_of_fanout_state. intros [_ ?]. congruence.
    - apply Forall_fmap, Forall_forall. by intros.
    - eapply Forall_impl; [exact Hoff|]. intros x Hx.
      destruct x; simpl in *; try done; by apply bool_decide_eq_false_2. }
  rewrite run_trace_fanout_cons, writes_to_app, writes_to_pass, Hrest by done.
  unfold write_effects. rewrite Hd, Hw. unfold writes_to. simpl.
  by rewrite bool_decide_eq_true_2.
Qed.

(** The theorem for the failing socket of the sample state. *)
Lemma failed_client_not_retried_witness :
  NoDup (tcpClients sample_state) /\
  1%positive ∈ tcpClients sample_state /\
  destroyed (sockets sample_state 1%positive) = false /\
  write_throws (sockets sample_state 1%positive) = Some sample_error /\
  writes_to 1%positive
    (run_trace [] (SerialData <$> sample_data :: [[Byte.xff]]) sample_state)
  = [SocketWriteThrew 1%positive sample_data sample_error].
Proof.
  assert (H1 : NoDup (tcpClients sample_state)) by by_decide.
  assert (H2 : 1%positive ∈ tcpClients sample_state) by by_decide.
  split; [exact H1|]. split; [exact H2|]. split; [reflexivity|].
  split; [reflexivity|].
  exact (failed_client_not_retried [] 1%positive sample_error sample_data
           [[Byte.xff]] sample_state H1 H2 eq_refl eq_refl).
Defined.

(** *** Connections *)

Lemma Set_delete_absent s l : s ∉ l -> Set_delete s l = l.
Proof.
  unfold Set_delete. induction l as [|y l IH]; intros Hs; [done|].
  apply not_elem_of_cons in Hs as [Hne Hs].
  rewrite filter_cons_True by done. by rewrite IH.
Qed.

Lemma Set_delete_add s l : s ∉ l -> Set_delete s (Set_add s l) = l.
Proof.
  intros Hs. unfold Set_add. destruct (decide (s ∈ l)); [done|].
  unfold Set_delete. rewrite filter_app.
  rewrite (filter_cons_False _ s []) by (intros H; by apply H).
  rewrite filter_nil, app_nil_r. by apply Set_delete_absent.
Qed.

(** X11: a client that connects and then closes leaves the client set as
    it was, and the two reports carry the same address: the one read when
    the client connected, whatever the runtime did to the socket's fields
    in between. *)
Theorem connect_then_close_restores_set args s socks open st :
  s ∉ tcpClients st ->
  exists st',
    run args [Connection s; Runtime socks open; SocketClosed s] st
    = (Running, st') /\
    tcpClients st' = tcpClients st /\
    trace st'
    = (trace st ++
       [ConsoleLog ("TCP client connected: " +:+
          render_string (remoteAddress (sockets st s)) +:+ ":" +:+
          render_number (remotePort (sockets st s)));
        ConsoleLog ("TCP client disconnected: " +:+
          render_string (remoteAddress (sockets st s)) +:+ ":" +:+
          render_number (remotePort (sockets st s)))])%list.
Proof.
  intros Hs. cbn [run dispatch].
  unfold server_onConnection, with_listener, socket_onClose. step_m.
  cbn [listeners set_listeners set_isOpen set_sockets set_tcpClients add_trace].
  rewrite fn_lookup_insert. eexists. split; [reflexivity|].
  split.
  - simpl. by apply Set_delete_add.
  - simpl. by rewrite <- app_assoc.
Qed.

(** The theorem for a new client at the idle state, its address gone by
    the time it closes. *)
Lemma connect_then_close_restores_set_witness :
  (7%positive ∉ tcpClients idle_state) /\
  exists st',
    run [] [Connection 7%positive;
            Runtime (fun _ => {| remoteAddress := None; remotePort := None;
                                 destroyed := true; write_throws := None;
                                 destroy_throws := None |}) true;
            SocketClosed 7%positive] idle_state
    = (Running, st') /\
    tcpClients st' = tcpClients idle_state /\
    trace st'
    = (trace idle_state ++
       [ConsoleLog ("TCP client connected: " +:+
          render_string (remoteAddress (sockets idle_state 7%positive)) +:+ ":" +:+
          render_number (remotePort (sockets idle_state 7%positive)));
        ConsoleLog ("TCP client disconnected: " +:+
          render_string (remoteAddress (sockets idle_state 7%positive)) +:+ ":" +:+
          render_number (remotePort (sockets idle_state 7%positive)))])%list.
Proof.
  assert (H : 7%positive ∉ tcpClients idle_state) by by_decide.
  split; [exact H|].
  exact (connect_then_close_restores_set [] 7%positive _ true idle_state H).
Defined.

(** *** From the clients to the serial port *)

(** X12: while the serial port is open, the chunks that registered
    clients send are written to it whole, one write each, in the order
    the data events arrive, whichever clients they come from; nothing
    else changes. *)
Theorem client_data_forwarded_in_order args (msgs : list (sock * Buffer)) st :
  isOpen st = true ->
  Forall (fun m => is_Some (listeners st m.1)) msgs ->
  run args ((fun m => SocketData m.1 m.2) <$> msgs) st
  = (Running, add_trace ((fun m => SerialWrite m.2) <$> msgs) st).
Proof.
  revert st. induction msgs as [|[s d] msgs IH]; intros st Ho Hreg.
  - simpl. by rewrite add_trace_nil.
  - apply Forall_cons in Hreg as [[addr Hs] Hreg].
    change ((fun m => SocketData m.1 m.2) <$> (s, d) :: msgs)
      with (SocketData s d :: ((fun m => SocketData m.1 m.2) <$> msgs)).
    cbn [run dispatch]. unfold with_listener, socket_onData. step_m.
    simpl in Hs. rewrite Hs, Ho. rewrite IH by done.
    by rewrite add_trace_app.
Qed.

(** The theorem for two chunks from the connected client. *)
Lemma client_data_forwarded_in_order_witness :
  isOpen connected_state = true /\
  Forall (fun m => is_Some (listeners connected_state m.1))
    [(7%positive, sample_data); (7%positive, [Byte.xff])] /\
  run [] ((fun m => SocketData m.1 m.2)
            <$> [(7%positive, sample_data); (7%positive, [Byte.xff])])
    connected_state
  = (Running,
     add_trace ((fun m => SerialWrite m.2)
                  <$> [(7%positive, sample_data); (7%positive, [Byte.xff])])
       connected_state).
Proof.
  assert (H : Forall (fun m => is_Some (listeners connected_state m.1))
                [(7%positive, sample_data); (7%positive, [Byte.xff])])
    by (repeat constructor; vm_compute; eauto).
  split; [reflexivity|]. split; [exact H|].
  exact (client_data_forwarded_in_order []
           [(7%positive, sample_data); (7%positive, [Byte.xff])]
           connected_state eq_refl H).
Defined.

(** *** A pass after a pass *)

Lemma pass_without_dead data st l :
  (forall s, s ∈ l -> dead st s = false) ->
  flat_map (write_effects data st) l
  = ((fun s => SocketWrite s data)
       <$> List.filter (fun s => negb (destroyed (sockets st s))) l) /\
  List.filter (dead st) l = [].
Proof.
  induction l as [|s l IH]; intros Hl; [done|].
  destruct IH as [IH1 IH2]; [intros x Hx; apply Hl; by right|].
  assert (Hs : dead st s = false) by (apply Hl; by left).
  simpl. rewrite IH1, Hs, IH2. split; [|done].
  unfold dead in Hs. unfold write_effects.
  destruct (destroyed (sockets st s)); simpl in *; [done|].
  by destruct (write_throws (sockets st s)).
Qed.

(** X13: a fan-out pass leaves no failing writer behind: a second pass
    right after it marks no client dead, removes none and calls no
    [destroy]; it writes the new chunk to each client of the set that is
    not destroyed, and does nothing else. *)
Theorem fanout_cleanup_is_complete data1 data2 st :
  serial_onData data2 (snd (serial_onData data1 st))
  = (Normal tt,
     add_trace
       ((fun s => SocketWrite s data2)
          <$> List.filter
                (fun s => negb (destroyed (sockets (snd (serial_onData data1 st)) s)))
                (tcpClients (snd (serial_onData data1 st))))
       (snd (serial_onData data1 st))).
Proof.
  rewrite !serial_onData_eq. cbn [snd].
  destruct (pass_without_dead data2 (fanout_state data1 st)
              (tcpClients (fanout_state data1 st))) as [Hw Hd].
  - intros s Hs. apply elem_of_fanout_state in Hs as [_ Hs].
    unfold dead. by rewrite fanout_state_sockets.
  - unfold fanout_state at 1. by rewrite Hd, Hw.
Qed.

(** *** The configuration *)

Lemma getArg_default_or_nonempty args flag d :
  getArg args flag d = d \/ exists v, getArg args flag d = str v /\ v ≠ "".
Proof.
  unfold getArg.
  destruct (negb (indexOf args flag =? -1)); simpl; [|by left].
  destruct (get args (indexOf args flag + 1)) as [|v]; simpl; [by left|].
  destruct (String.eqb_spec v ""); simpl; [by left|right; eauto].
Qed.

(** X14: whatever the arguments, the serial path and the bind host are
    strings and are not empty: an argument that is missing or empty gives
    way to the default. *)
Theorem path_and_host_never_empty args :
  (exists v, serialPort args = str v /\ v ≠ "") /\
  (exists v, tcpHost args = str v /\ v ≠ "").
Proof.
  split.
  - destruct (getArg_default_or_nonempty args "--serial-port" (str "/dev/ttyUSB0"))
      as [H|H]; [|exact H].
    exists "/dev/ttyUSB0". by split.
  - destruct (getArg_default_or_nonempty args "--tcp-host" (str "0.0.0.0"))
      as [H|H]; [|exact H].
    exists "0.0.0.0". by split.
Qed.

(** *** The port argument *)

Lemma small_N_cases (d : N) :
  (d < 10)%N ->
  d = 0%N \/ d = 1%N \/ d = 2%N \/ d = 3%N \/ d = 4%N \/ d = 5%N \/ d = 6%N \/
  d = 7%N \/ d = 8%N \/ d = 9%N.
Proof. lia. Qed.

Lemma digit_value_char d :
  (d < 10)%N -> digit_value 10 (pretty_N_char d) = Some (Z.of_N d).
Proof.
  intros Hd. destruct (small_N_cases d Hd)
    as [->|[->|[->|[->|[->|[->|[->|[->|[->| ->]]]]]]]]]; reflexivity.
Qed.

Lemma parse_digits_char d s a :
  (d < 10)%N ->
  parse_digits 10 (String (pretty_N_char d) s) a
  = parse_digits 10 s (Some (default 0 a * 10 + Z.of_N d)).
Proof.
  intros Hd. cbn [parse_digits]. rewrite digit_value_char by done.
  by destruct a.
Qed.

(** Reading back the digits that [pretty] writes in front of [s]. *)
Lemma parse_digits_pretty_go x :
  (0 < x)%N -> forall s a, exists k,
    parse_digits 10 (pretty_N_go x s) a
    = parse_digits 10 s (Some (default 0 a * 10 ^ k + Z.of_N x)) /\ 0 <= k.
Proof.
  induction (N.lt_wf_0 x) as [x _ IH]. intros Hx s a.
  rewrite pretty_N_go_step by done.
  assert (Hr : (x `mod` 10 < 10)%N) by (apply N.mod_lt; lia).
  pose proof (N.div_mod x 10) as Hdm.
  destruct (decide (x `div` 10 = 0)%N) as [Hq|Hq].
  - rewrite Hq, pretty_N_go_0, parse_digits_char by done.
    exists 1. split; [|lia]. do 2 f_equal. lia.
  - destruct (IH (x `div` 10)%N) with
      (s := String (pretty_N_char (x `mod` 10)) s) (a := a) as (k & Hk & Hk0).
    + apply N.div_lt; lia.
    + lia.
    + rewrite Hk, parse_digits_char by done. exists (k + 1). split; [|lia].
      do 2 f_equal. simpl. rewrite Z.pow_add_r by lia. lia.
Qed.

(** The first character [pretty] writes is a digit from 1 to 9. *)
Lemma pretty_go_head x :
  (0 < x)%N -> forall s, exists d t,
    (0 < d < 10)%N /\ pretty_N_go x s = String (pretty_N_char d) t.
Proof.
  induction (N.lt_wf_0 x) as [x _ IH]. intros Hx s.
  rewrite pretty_N_go_step by done.
  assert (Hr : (x `mod` 10 < 10)%N) by (apply N.mod_lt; lia).
  pose proof (N.div_mod x 10) as Hdm.
  destruct (decide (x `div` 10 = 0)%N) as [Hq|Hq].
  - rewrite Hq, pretty_N_go_0. exists (x `mod` 10)%N, s. split; [lia|done].
  - apply IH; [apply N.div_lt; lia|lia].
Qed.

Lemma round_double_small x : Z.abs x < 2 ^ 53 -> round_double x = x.
Proof.
  intros Hx. unfold round_double.
  by destruct (Z.ltb_spec (Z.abs x) (2 ^ 53)); [|lia].
Qed.

Lemma parseInt_digit_head d t :
  (0 < d < 10)%N ->
  parseInt (str (String (pretty_N_char d) t))
  = match parse_digits 10 (String (pretty_N_char d) t) None with
    | Some n => Some (round_double (1 * n))
    | None => None
    end.
Proof.
  intros [Hd0 Hd]. destruct (small_N_cases d Hd)
    as [->|[->|[->|[->|[->|[->|[->|[->|[->| ->]]]]]]]]]; [lia|..];
    destruct t as [|c2 [|c3 t3]]; reflexivity.
Qed.

Lemma parseInt_pretty (n : N) :
  parseInt (str (pretty n)) = Some (round_double (Z.of_N n)).
Proof.
  unfold pretty, pretty_N. destruct (decide (n = 0)%N) as [->|Hn]; [done|].
  assert (Hpos : (0 < n)%N) by lia.
  destruct (pretty_go_head n Hpos "") as (d & t & Hd & Hs).
  destruct (parse_digits_pretty_go n Hpos "" None) as (k & Hk & _).
  rewrite Hs in Hk |- *. rewrite parseInt_digit_head, Hk by done.
  cbn [parse_digits default]. do 2 f_equal. lia.
Qed.

Lemma pretty_N_nonempty (n : N) : pretty n ≠ "".
Proof.
  unfold pretty, pretty_N. destruct (decide (n = 0)%N) as [->|Hn]; [done|].
  destruct (pretty_go_head n) with (s := "") as (d & t & _ & ->); [lia|done].
Qed.

(** X15: a port given in decimal after the first [--tcp-port] is the port
    the script uses, for every number below 2^53, where a double holds
    an integer exactly. *)
Theorem decimal_port_is_parsed pre rest (n : N) :
  "--tcp-port" ∉ pre -> Z.of_N n < 2 ^ 53 ->
  tcpPort (pre ++ "--tcp-port" :: pretty n :: rest) = Some (Z.of_N n).
Proof.
  intros Hpre Hn. unfold tcpPort. rewrite getArg_first by done.
  destruct (String.eqb_spec (pretty n) "") as [H|_].
  - by apply pretty_N_nonempty in H.
  - rewrite parseInt_pretty, round_double_small; [done|lia].
Qed.

(** The theorem for port 8080 after a host argument. *)
Lemma decimal_port_is_parsed_witness :
  ("--tcp-port" ∉ ["--tcp-host"; "127.0.0.1"]) /\
  Z.of_N 8080 < 2 ^ 53 /\
  tcpPort (["--tcp-host"; "127.0.0.1"] ++ "--tcp-port" :: pretty 8080%N :: [])
  = Some (Z.of_N 8080).
Proof.
  assert (H1 : "--tcp-port" ∉ ["--tcp-host"; "127.0.0.1"]) by by_decide.
  assert (H2 : Z.of_N 8080 < 2 ^ 53) by reflexivity.
  split; [exact H1|]. split; [exact H2|].
  exact (decimal_port_is_parsed ["--tcp-host"; "127.0.0.1"] [] 8080%N H1 H2).
Defined.

(** *** Leaving the client set *)

(** X16: a socket leaves the client set in two ways only: its close
    event, handled by its registered close handler, or a serial chunk
    whose write to it throws. *)
Theorem client_leaves_only_on_close_or_failed_write args ev st x :
  x ∈ tcpClients st -> x ∉ tcpClients (snd (dispatch args ev st)) ->
  (ev = SocketClosed x /\ is_Some (listeners st x)) \/
  (exists d, ev = SerialData d /\ dead st x = true).
Proof.
  intros Hin Hout.
  destruct ev as [data|error| |[error|]|socket|socket data|socket error|socket
                 |error|address port|[|]|socks open]; cbn [dispatch] in Hout;
    try (by destruct Hout).
  - rewrite serial_onData_eq in Hout. cbn [snd] in Hout.
    rewrite elem_of_fanout_state in Hout. right. exists data. split; [done|].
    destruct (dead st x); [done|]. by destruct Hout.
  - simpl in Hout. rewrite elem_of_Set_add in Hout. destruct Hout. by left.
  - revert Hout. unfold with_listener, socket_onData. step_m.
    destruct (listeners st socket); [destruct (isOpen st)|]; simpl; done.
  - revert Hout. unfold with_listener, socket_onError. step_m.
    destruct (listeners st socket); simpl; done.
  - revert Hout. unfold with_listener, socket_onClose. step_m.
    destruct (listeners st socket) as [addr|] eqn:Hl; simpl; [|done].
    rewrite elem_of_Set_delete. intros Hout. left.
    destruct (decide (x = socket)) as [->|Hne];
      [split; [done|rewrite Hl; eauto]|].
    destruct Hout. by split.
  - rewrite onSIGINT_eq in Hout. cbn [snd] in Hout.
    rewrite shutdown_state_tcpClients in Hout. by destruct Hout.
  - rewrite onSIGTERM_eq in Hout. cbn [snd] in Hout.
    rewrite shutdown_state_tcpClients in Hout. by destruct Hout.
Qed.

(** The theorem for the close of the healthy socket of the sample state. *)
Lemma client_leaves_only_on_close_or_failed_write_witness :
  3%positive ∈ tcpClients sample_state /\
  (3%positive
     ∉ tcpClients (snd (dispatch [] (SocketClosed 3%positive) sample_state))) /\
  ((SocketClosed 3%positive = SocketClosed 3%positive /\
    is_Some (listeners sample_state 3%positive)) \/
   exists d, SocketClosed 3%positive = SerialData d /\
             dead sample_state 3%positive = true).
Proof.
  assert (H1 : 3%positive ∈ tcpClients sample_state) by by_decide.
  assert (H2 : 3%positive
      ∉ tcpClients (snd (dispatch [] (SocketClosed 3%positive) sample_state)))
    by by_decide.
  split; [exact H1|]. split; [exact H2|].
  exact (client_leaves_only_on_close_or_failed_write []
           (SocketClosed 3%positive) sample_state 3%positive H1 H2).
Defined.

(** *** A port that is no number *)

Lemma parseInt_letter_head c t :
  65 <= code c <= 90 \/ 97 <= code c <= 122 ->
  parseInt (str (String c t)) = None.
Proof.
  intros Hc.
  destruct c as [[] [] [] [] [] [] [] []]; vm_compute in Hc;
    try (exfalso; destruct Hc as [[H1 H2]|[H1 H2]];
         first [by apply H1 | by apply H2]);
    destruct t as [|c2 [|c3 t3]]; reflexivity.
Qed.

(** X17: the port argument is not validated: when the value after
    [--tcp-port] starts with a letter, the port is NaN, and the script
    reports it and calls [listen] with it all the same. *)
Theorem non_numeric_port_is_NaN pre rest c t socks :
  "--tcp-port" ∉ pre ->
  65 <= code c <= 90 \/ 97 <= code c <= 122 ->
  tcpPort (pre ++ "--tcp-port" :: String c t :: rest) = None /\
  trace (boot (pre ++ "--tcp-port" :: String c t :: rest) socks)
  = [ConsoleLog "Starting Serial to TCP Bridge";
     ConsoleLog ("Serial: " +:+
        to_string (serialPort (pre ++ "--tcp-port" :: String c t :: rest)));
     ConsoleLog ("TCP: " +:+
        to_string (tcpHost (pre ++ "--tcp-port" :: String c t :: rest)) +:+
        ":NaN");
     SerialOpen (serialPortOptions (pre ++ "--tcp-port" :: String c t :: rest));
     ServerListen None (tcpHost (pre ++ "--tcp-port" :: String c t :: rest))].
Proof.
  intros Hpre Hc.
  assert (H : tcpPort (pre ++ "--tcp-port" :: String c t :: rest) = None).
  { unfold tcpPort. rewrite getArg_first by done. simpl.
    by apply parseInt_letter_head. }
  split; [exact H|]. rewrite boot_eq. simpl. by rewrite H.
Qed.

(** The theorem for the value [abc]. *)
Lemma non_numeric_port_is_NaN_witness :
  ("--tcp-port" ∉ ["-v"]) /\
  (65 <= code "a" <= 90 \/ 97 <= code "a" <= 122) /\
  tcpPort (["-v"] ++ "--tcp-port" :: String "a" "bc" :: []) = None /\
  trace (boot (["-v"] ++ "--tcp-port" :: String "a" "bc" :: [])
           (fun _ => sample_socket false None None))
  = [ConsoleLog "Starting Serial to TCP Bridge";
     ConsoleLog ("Serial: " +:+
        to_string (serialPort (["-v"] ++ "--tcp-port" :: String "a" "bc" :: [])));
     ConsoleLog ("TCP: " +:+
        to_string (tcpHost (["-v"] ++ "--tcp-port" :: String "a" "bc" :: [])) +:+
        ":NaN");
     SerialOpen (serialPortOptions (["-v"] ++ "--tcp-port" :: String "a" "bc" :: []));
     ServerListen None (tcpHost (["-v"] ++ "--tcp-port" :: String "a" "bc" :: []))].
Proof.
  assert (H1 : "--tcp-port" ∉ ["-v"]) by by_decide.
  assert (H2 : 65 <= code "a" <= 90 \/ 97 <= code "a" <= 122)
    by (right; vm_compute; split; discriminate).
  split; [exact H1|]. split; [exact H2|].
  exact (non_numeric_port_is_NaN ["-v"] [] "a"%char "bc"
           (fun _ => sample_socket false None None) H1 H2).
Defined.
